(** * Live audio client: the frequency analyser and the session core

    A shallow embedding of [src/analyser.ts] and of the component class of
    [src/index.tsx], with the properties of the specification stated over it.

    Conventions of the embedding.
    - Browser objects (audio nodes, media streams, promises, sessions) are
      identified by natural numbers handed out by a counter.
    - JavaScript runs one job at a time.  An [async] method is split at each
      [await]: the part before it is a function on the state, the part after
      it a constructor of [Cont] interpreted by [run_cont].  A task of the
      environment starts only when the job queue is empty ([step]).
    - What the browser, the SDK and the helpers of [./utils] compute
      (decoded buffers, media streams, encoded frames, sessions) comes from
      the environment, which settles the promise of each request.  The API
      key of the build is an argument of the constructor.
    - Calls out of the component are recorded in a trace.
    - Times on the output timeline are counted in sample frames of the
      24000 Hz output context, so a decoded buffer of [n] frames lasts [n].
    - The texts of the program (messages, names, file names) and the
      transport strings are strings of characters; the transcription texts,
      which the server sends and [trim] inspects, are sequences of UTF-16
      code units. *)

From stdpp Require Import gmap strings list.
From Stdlib Require Import ZArith NArith QArith Ascii.
Local Open Scope Z_scope.

(** ** src/analyser.ts *)

Module Analyser.

(** The browser's [AnalyserNode], as far as the class configures it.
    [inputs] are the nodes connected into it. *)
Record AnalyserNode := {
  fftSize : Z;
  smoothingTimeConstant : Q;
  minDecibels : Z;
  maxDecibels : Z;
  inputs : list nat;
}.

(** [context.createAnalyser()]: the defaults of the Web Audio API. *)
Definition createAnalyser : AnalyserNode :=
  {| fftSize := 2048; smoothingTimeConstant := (8 # 10)%Q;
     minDecibels := -100; maxDecibels := -30; inputs := [] |}.

(** The [fftSize] setter accepts a power of two from 32 to 32768 and
    throws otherwise. *)
Definition valid_fftSize (v : Z) : bool :=
  (32 <=? v) && (v <=? 32768) && (2 ^ Z.log2 v =? v).

Definition set_fftSize (v : Z) (n : AnalyserNode) : option AnalyserNode :=
  if valid_fftSize v
  then Some {| fftSize := v; smoothingTimeConstant := smoothingTimeConstant n;
               minDecibels := minDecibels n; maxDecibels := maxDecibels n;
               inputs := inputs n |}
  else None.

Definition set_smoothingTimeConstant (v : Q) (n : AnalyserNode) : AnalyserNode :=
  {| fftSize := fftSize n; smoothingTimeConstant := v;
     minDecibels := minDecibels n; maxDecibels := maxDecibels n;
     inputs := inputs n |}.

(** The decibel setters throw unless [minDecibels < maxDecibels] holds
    afterwards. *)
Definition set_minDecibels (v : Z) (n : AnalyserNode) : option AnalyserNode :=
  if v <? maxDecibels n
  then Some {| fftSize := fftSize n; smoothingTimeConstant := smoothingTimeConstant n;
               minDecibels := v; maxDecibels := maxDecibels n; inputs := inputs n |}
  else None.

Definition set_maxDecibels (v : Z) (n : AnalyserNode) : option AnalyserNode :=
  if minDecibels n <? v
  then Some {| fftSize := fftSize n; smoothingTimeConstant := smoothingTimeConstant n;
               minDecibels := minDecibels n; maxDecibels := v; inputs := inputs n |}
  else None.

Definition connect_input (src : nat) (n : AnalyserNode) : AnalyserNode :=
  {| fftSize := fftSize n; smoothingTimeConstant := smoothingTimeConstant n;
     minDecibels := minDecibels n; maxDecibels := maxDecibels n;
     inputs := inputs n ++ [src] |}.

(** [frequencyBinCount] is half the transform size. *)
Definition frequencyBinCount (n : AnalyserNode) : nat := Z.to_nat (fftSize n / 2).

(** Typed arrays live in a heap; a field holding one holds its address. *)
Abbreviation heap := (gmap nat (list Byte.byte)).

Record t := {
  analyser : AnalyserNode;
  bufferLength : nat;
  dataArray : nat;
}.

(** [new Uint8Array(n)]: a fresh zero-filled array. *)
Definition new_Uint8Array (n : nat) (h : heap) : nat * heap :=
  let l := fresh (dom h) in (l, <[l := replicate n Byte.x00]> h).

(** [constructor(node)], lines 13-22. *)
Definition constructor (node : nat) (h : heap) : option (t * heap) :=
  n ← set_fftSize 256 createAnalyser;
  let n := set_smoothingTimeConstant (6 # 10)%Q n in
  n ← set_minDecibels (-90) n;
  n ← set_maxDecibels (-10) n;
  let len := frequencyBinCount n in
  let '(arr, h) := new_Uint8Array len h in
  Some ({| analyser := connect_input node n; bufferLength := len; dataArray := arr |}, h).

(** [getByteFrequencyData(array)] overwrites the array in place with the
    node's current byte spectrum [freq]; whichever of the two is longer is
    cut to the other. *)
Definition getByteFrequencyData (freq : list Byte.byte) (arr : nat) (h : heap) : heap :=
  match h !! arr with
  | Some old => <[arr := take (length old) freq ++ drop (length freq) old]> h
  | None => h
  end.

(** [update()], lines 24-26.  [freq] is what the node has computed. *)
Definition update (freq : list Byte.byte) (s : t * heap) : t * heap :=
  (s.1, getByteFrequencyData freq (dataArray s.1) s.2).

(** [get data()], lines 28-30: the address, not a copy. *)
Definition data (a : t) : nat := dataArray a.

(** The state after a run of update cycles. *)
Definition updates (freqs : list (list Byte.byte)) (s : t * heap) : t * heap :=
  foldl (λ s freq, update freq s) s freqs.

End Analyser.

(** ** src/index.tsx *)

Module GdmLiveAudio.

(** *** Data *)

Inductive SessionState := Idle | Connecting | Connected | Error.

#[global] Instance SessionState_eq_dec : EqDecision SessionState.
Proof. solve_decision. Defined.

Inductive Speaker := You | Gemini.

(** A JavaScript string as a sequence of UTF-16 code units, each a number
    below 65536. *)
Definition Text := list N.

Record TranscriptionEntry := { speaker : Speaker; text : Text }.

(** A decoded buffer; only its duration (in frames) is used. *)
Record AudioBuffer := { duration : Z }.

(** What [sendRealtimeInput] is given: a microphone block (named by its
    sequence number; the samples are floating point and not modelled) or a
    JPEG frame. *)
Inductive Media := Pcm (block : nat) | Jpeg (base64 : string).

Inductive RecordingState := Inactive | Recording | Paused.

(** An inbound message.  An absent [serverContent] is a message whose
    content fields are all absent; [functionCalls] is taken to be present
    whenever [toolCall] is.  The [parts] of a [modelTurn] are optional, as
    the SDK declares them.  [inlineData] holds the [data] string of the
    part, and a transcription its optional [text]. *)
Record FunctionCall := { fc_id : string; fc_name : string; fc_color : string }.

Record Part := { inlineData : option string }.

Record Content := { parts : option (list Part) }.

Record LiveServerMessage := {
  toolCall : option (list FunctionCall);
  modelTurn : option Content;
  inputTranscription : option (option Text);
  outputTranscription : option (option Text);
  turnComplete : bool;
  interrupted : bool;
}.

(** *** Promises and the job queue *)

Inductive Value :=
| VUndefined
| VSession (c : nat)
| VAudioBuffer (b : AudioBuffer)
| VMediaStream (m : nat)
| VBase64 (d : string).

Inductive Settlement := Fulfilled (v : Value) | Rejected (message : string).

(** Asynchronous operations of the browser and of the SDK; the environment
    settles their promises. *)
Inductive Request :=
| Connect (voiceName systemInstruction : string)
| DecodeAudioData (base64Audio : string)
| Resume
| GetUserMedia (video : bool)
| Play
| EncodeFrame
| GetDisplayMedia.

(** Synchronous calls out of the component, in the order they are made. *)
Inductive Effect :=
| Call (p : nat) (r : Request)
| SetColor (color : string)
| SendToolResponse (session : nat) (id name result : string)
| SendRealtimeInput (session : nat) (media : Media)
| SessionClose (session : nat)
| SourceStart (source : nat) (when : Z)
| SourceStop (source : nat)
| Disconnect (node : nat)
| TrackStop (stream : nat)
| ClearInterval (id : nat)
| RecorderStart (recorder : nat)
| RecorderStop (recorder : nat)
| ContextClose (ctx : nat)
| Download (filename : string) (chunks : list nat).

(** The code after an [await], or the callback given to [then]. *)
Inductive Cont :=
| initSession_k (q : nat)
| handleMessage_k (fc : FunctionCall) (rest : list FunctionCall)
                  (message : LiveServerMessage)
| playAudio_k
| startConversation_k1
| startConversation_k2
| onaudioprocess_then (block : nat)
| startCamera_k1
| startCamera_k2
| frame_k
| frame_then (base64Data : string)
| applySettingsAndResetSession_k
| startRecording_k.

(** *** The component's fields, grouped by pipeline *)

Record Ui := {
  ui_isConversing : bool;
  ui_isCameraOn : bool;
  ui_isRecording : bool;
  ui_sessionState : SessionState;
  ui_status : string;
  ui_error : string;
}.

Record Transcript := {
  tr_transcriptionHistory : list TranscriptionEntry;
  tr_currentUserTranscription : Text;
  tr_currentModelTranscription : Text;
  tr_currentInput : Text;
  tr_currentOutput : Text;
}.

Record Settings := {
  se_currentVoice : string;
  se_currentSystemInstruction : string;
  se_pendingVoice : string;
  se_pendingSystemInstruction : string;
}.

Record Playback := {
  pb_nextStartTime : Z;
  pb_sources : list nat;
}.

Record Capture := {
  cp_mediaStream : option nat;
  cp_sourceNode : option nat;
  cp_scriptProcessorNode : option nat;
}.

Record Camera := {
  cm_videoStream : option nat;
  cm_frameIntervalRef : option nat;
  cm_srcObject : option nat;
}.

Record Recorder := {
  rc_mediaRecorder : option (nat * RecordingState);
  rc_recordedChunks : list nat;
  rc_screenStream : option nat;
  rc_recordingMixContext : option nat;
}.

(** The JavaScript run time around the component. *)
Record Runtime := {
  rt_currentTime : Z;
  rt_next : nat;
  rt_requests : gmap nat Request;
  rt_promises : gmap nat Settlement;
  rt_waiters : list (nat * Cont);
  rt_microtasks : list (Cont * Settlement);
  rt_trace : list Effect;
}.

(** The component and its run time.  [client] tells whether [this.client]
    has been assigned.  [sessionPromise] is the identity of the promise the
    field holds; until the field is assigned it is [0], which stands for
    [undefined]. *)
Record World := {
  ui : Ui;
  transcript : Transcript;
  settings : Settings;
  playback : Playback;
  capture : Capture;
  camera : Camera;
  recorder : Recorder;
  client : bool;
  sessionPromise : nat;
  runtime : Runtime;
}.


(** Field access under the names of the class. *)
Definition isConversing w := ui_isConversing (ui w).
Definition isCameraOn w := ui_isCameraOn (ui w).
Definition isRecording w := ui_isRecording (ui w).
Definition sessionState w := ui_sessionState (ui w).
Definition status w := ui_status (ui w).
Definition error w := ui_error (ui w).
Definition transcriptionHistory w := tr_transcriptionHistory (transcript w).
Definition currentUserTranscription w := tr_currentUserTranscription (transcript w).
Definition currentModelTranscription w := tr_currentModelTranscription (transcript w).
Definition _currentInput w := tr_currentInput (transcript w).
Definition _currentOutput w := tr_currentOutput (transcript w).
Definition currentVoice w := se_currentVoice (settings w).
Definition currentSystemInstruction w := se_currentSystemInstruction (settings w).
Definition pendingVoice w := se_pendingVoice (settings w).
Definition pendingSystemInstruction w := se_pendingSystemInstruction (settings w).
Definition nextStartTime w := pb_nextStartTime (playback w).
Definition sources w := pb_sources (playback w).
Definition mediaStream w := cp_mediaStream (capture w).
Definition sourceNode w := cp_sourceNode (capture w).
Definition scriptProcessorNode w := cp_scriptProcessorNode (capture w).
Definition videoStream w := cm_videoStream (camera w).
Definition frameIntervalRef w := cm_frameIntervalRef (camera w).
Definition srcObject w := cm_srcObject (camera w).
Definition mediaRecorder w := rc_mediaRecorder (recorder w).
Definition recordedChunks w := rc_recordedChunks (recorder w).
Definition screenStream w := rc_screenStream (recorder w).
Definition recordingMixContext w := rc_recordingMixContext (recorder w).
Definition currentTime w := rt_currentTime (runtime w).
Definition requests w := rt_requests (runtime w).
Definition promises w := rt_promises (runtime w).
Definition waiters w := rt_waiters (runtime w).
Definition microtasks w := rt_microtasks (runtime w).
Definition trace w := rt_trace (runtime w).

(** Assignment to one group, and through it to one field. *)
Definition with_ui (f : Ui → Ui) (w : World) : World :=
  {| ui := f (ui w); transcript := transcript w; settings := settings w;
     playback := playback w; capture := capture w; camera := camera w;
     recorder := recorder w; client := client w;
     sessionPromise := sessionPromise w; runtime := runtime w |}.
Definition with_transcript (f : Transcript → Transcript) (w : World) : World :=
  {| ui := ui w; transcript := f (transcript w); settings := settings w;
     playback := playback w; capture := capture w; camera := camera w;
     recorder := recorder w; client := client w;
     sessionPromise := sessionPromise w; runtime := runtime w |}.
Definition with_settings (f : Settings → Settings) (w : World) : World :=
  {| ui := ui w; transcript := transcript w; settings := f (settings w);
     playback := playback w; capture := capture w; camera := camera w;
     recorder := recorder w; client := client w;
     sessionPromise := sessionPromise w; runtime := runtime w |}.
Definition with_playback (f : Playback → Playback) (w : World) : World :=
  {| ui := ui w; transcript := transcript w; settings := settings w;
     playback := f (playback w); capture := capture w; camera := camera w;
     recorder := recorder w; client := client w;
     sessionPromise := sessionPromise w; runtime := runtime w |}.
Definition with_capture (f : Capture → Capture) (w : World) : World :=
  {| ui := ui w; transcript := transcript w; settings := settings w;
     playback := playback w; capture := f (capture w); camera := camera w;
     recorder := recorder w; client := client w;
     sessionPromise := sessionPromise w; runtime := runtime w |}.
Definition with_camera (f : Camera → Camera) (w : World) : World :=
  {| ui := ui w; transcript := transcript w; settings := settings w;
     playback := playback w; capture := capture w; camera := f (camera w);
     recorder := recorder w; client := client w;
     sessionPromise := sessionPromise w; runtime := runtime w |}.
Definition with_recorder (f : Recorder → Recorder) (w : World) : World :=
  {| ui := ui w; transcript := transcript w; settings := settings w;
     playback := playback w; capture := capture w; camera := camera w;
     recorder := f (recorder w); client := client w;
     sessionPromise := sessionPromise w; runtime := runtime w |}.
Definition set_client (b : bool) (w : World) : World :=
  {| ui := ui w; transcript := transcript w; settings := settings w;
     playback := playback w; capture := capture w; camera := camera w;
     recorder := recorder w; client := b;
     sessionPromise := sessionPromise w; runtime := runtime w |}.
Definition set_sessionPromise (p : nat) (w : World) : World :=
  {| ui := ui w; transcript := transcript w; settings := settings w;
     playback := playback w; capture := capture w; camera := camera w;
     recorder := recorder w; client := client w;
     sessionPromise := p; runtime := runtime w |}.
Definition with_runtime (f : Runtime → Runtime) (w : World) : World :=
  {| ui := ui w; transcript := transcript w; settings := settings w;
     playback := playback w; capture := capture w; camera := camera w;
     recorder := recorder w; client := client w;
     sessionPromise := sessionPromise w; runtime := f (runtime w) |}.

Definition set_isConversing v := with_ui (λ u,
  {| ui_isConversing := v; ui_isCameraOn := ui_isCameraOn u;
     ui_isRecording := ui_isRecording u; ui_sessionState := ui_sessionState u;
     ui_status := ui_status u; ui_error := ui_error u |}).
Definition set_isCameraOn v := with_ui (λ u,
  {| ui_isConversing := ui_isConversing u; ui_isCameraOn := v;
     ui_isRecording := ui_isRecording u; ui_sessionState := ui_sessionState u;
     ui_status := ui_status u; ui_error := ui_error u |}).
Definition set_isRecording v := with_ui (λ u,
  {| ui_isConversing := ui_isConversing u; ui_isCameraOn := ui_isCameraOn u;
     ui_isRecording := v; ui_sessionState := ui_sessionState u;
     ui_status := ui_status u; ui_error := ui_error u |}).
Definition set_sessionState v := with_ui (λ u,
  {| ui_isConversing := ui_isConversing u; ui_isCameraOn := ui_isCameraOn u;
     ui_isRecording := ui_isRecording u; ui_sessionState := v;
     ui_status := ui_status u; ui_error := ui_error u |}).
Definition set_status v := with_ui (λ u,
  {| ui_isConversing := ui_isConversing u; ui_isCameraOn := ui_isCameraOn u;
     ui_isRecording := ui_isRecording u; ui_sessionState := ui_sessionState u;
     ui_status := v; ui_error := ui_error u |}).
Definition set_error v := with_ui (λ u,
  {| ui_isConversing := ui_isConversing u; ui_isCameraOn := ui_isCameraOn u;
     ui_isRecording := ui_isRecording u; ui_sessionState := ui_sessionState u;
     ui_status := ui_status u; ui_error := v |}).

Definition set_transcriptionHistory v := with_transcript (λ t,
  {| tr_transcriptionHistory := v;
     tr_currentUserTranscription := tr_currentUserTranscription t;
     tr_currentModelTranscription := tr_currentModelTranscription t;
     tr_currentInput := tr_currentInput t; tr_currentOutput := tr_currentOutput t |}).
Definition set_currentUserTranscription v := with_transcript (λ t,
  {| tr_transcriptionHistory := tr_transcriptionHistory t;
     tr_currentUserTranscription := v;
     tr_currentModelTranscription := tr_currentModelTranscription t;
     tr_currentInput := tr_currentInput t; tr_currentOutput := tr_currentOutput t |}).
Definition set_currentModelTranscription v := with_transcript (λ t,
  {| tr_transcriptionHistory := tr_transcriptionHistory t;
     tr_currentUserTranscription := tr_currentUserTranscription t;
     tr_currentModelTranscription := v;
     tr_currentInput := tr_currentInput t; tr_currentOutput := tr_currentOutput t |}).
Definition set_currentInput v := with_transcript (λ t,
  {| tr_transcriptionHistory := tr_transcriptionHistory t;
     tr_currentUserTranscription := tr_currentUserTranscription t;
     tr_currentModelTranscription := tr_currentModelTranscription t;
     tr_currentInput := v; tr_currentOutput := tr_currentOutput t |}).
Definition set_currentOutput v := with_transcript (λ t,
  {| tr_transcriptionHistory := tr_transcriptionHistory t;
     tr_currentUserTranscription := tr_currentUserTranscription t;
     tr_currentModelTranscription := tr_currentModelTranscription t;
     tr_currentInput := tr_currentInput t; tr_currentOutput := v |}).

Definition set_currentVoice v := with_settings (λ s,
  {| se_currentVoice := v; se_currentSystemInstruction := se_currentSystemInstruction s;
     se_pendingVoice := se_pendingVoice s;
     se_pendingSystemInstruction := se_pendingSystemInstruction s |}).
Definition set_currentSystemInstruction v := with_settings (λ s,
  {| se_currentVoice := se_currentVoice s; se_currentSystemInstruction := v;
     se_pendingVoice := se_pendingVoice s;
     se_pendingSystemInstruction := se_pendingSystemInstruction s |}).
Definition set_pendingVoice v := with_settings (λ s,
  {| se_currentVoice := se_currentVoice s;
     se_currentSystemInstruction := se_currentSystemInstruction s;
     se_pendingVoice := v;
     se_pendingSystemInstruction := se_pendingSystemInstruction s |}).
Definition set_pendingSystemInstruction v := with_settings (λ s,
  {| se_currentVoice := se_currentVoice s;
     se_currentSystemInstruction := se_currentSystemInstruction s;
     se_pendingVoice := se_pendingVoice s; se_pendingSystemInstruction := v |}).

Definition set_nextStartTime v := with_playback (λ p,
  {| pb_nextStartTime := v; pb_sources := pb_sources p |}).
Definition set_sources v := with_playback (λ p,
  {| pb_nextStartTime := pb_nextStartTime p; pb_sources := v |}).

Definition set_mediaStream v := with_capture (λ c,
  {| cp_mediaStream := v; cp_sourceNode := cp_sourceNode c;
     cp_scriptProcessorNode := cp_scriptProcessorNode c |}).
Definition set_sourceNode v := with_capture (λ c,
  {| cp_mediaStream := cp_mediaStream c; cp_sourceNode := v;
     cp_scriptProcessorNode := cp_scriptProcessorNode c |}).
Definition set_scriptProcessorNode v := with_capture (λ c,
  {| cp_mediaStream := cp_mediaStream c; cp_sourceNode := cp_sourceNode c;
     cp_scriptProcessorNode := v |}).

Definition set_videoStream v := with_camera (λ c,
  {| cm_videoStream := v; cm_frameIntervalRef := cm_frameIntervalRef c;
     cm_srcObject := cm_srcObject c |}).
Definition set_frameIntervalRef v := with_camera (λ c,
  {| cm_videoStream := cm_videoStream c; cm_frameIntervalRef := v;
     cm_srcObject := cm_srcObject c |}).
Definition set_srcObject v := with_camera (λ c,
  {| cm_videoStream := cm_videoStream c;
     cm_frameIntervalRef := cm_frameIntervalRef c; cm_srcObject := v |}).

Definition set_mediaRecorder v := with_recorder (λ r,
  {| rc_mediaRecorder := v; rc_recordedChunks := rc_recordedChunks r;
     rc_screenStream := rc_screenStream r;
     rc_recordingMixContext := rc_recordingMixContext r |}).
Definition set_recordedChunks v := with_recorder (λ r,
  {| rc_mediaRecorder := rc_mediaRecorder r; rc_recordedChunks := v;
     rc_screenStream := rc_screenStream r;
     rc_recordingMixContext := rc_recordingMixContext r |}).
Definition set_screenStream v := with_recorder (λ r,
  {| rc_mediaRecorder := rc_mediaRecorder r;
     rc_recordedChunks := rc_recordedChunks r; rc_screenStream := v;
     rc_recordingMixContext := rc_recordingMixContext r |}).
Definition set_recordingMixContext v := with_recorder (λ r,
  {| rc_mediaRecorder := rc_mediaRecorder r;
     rc_recordedChunks := rc_recordedChunks r;
     rc_screenStream := rc_screenStream r; rc_recordingMixContext := v |}).

Definition set_currentTime v := with_runtime (λ r,
  {| rt_currentTime := v; rt_next := rt_next r; rt_requests := rt_requests r;
     rt_promises := rt_promises r; rt_waiters := rt_waiters r;
     rt_microtasks := rt_microtasks r; rt_trace := rt_trace r |}).
Definition set_next v := with_runtime (λ r,
  {| rt_currentTime := rt_currentTime r; rt_next := v; rt_requests := rt_requests r;
     rt_promises := rt_promises r; rt_waiters := rt_waiters r;
     rt_microtasks := rt_microtasks r; rt_trace := rt_trace r |}).
Definition set_requests v := with_runtime (λ r,
  {| rt_currentTime := rt_currentTime r; rt_next := rt_next r; rt_requests := v;
     rt_promises := rt_promises r; rt_waiters := rt_waiters r;
     rt_microtasks := rt_microtasks r; rt_trace := rt_trace r |}).
Definition set_promises v := with_runtime (λ r,
  {| rt_currentTime := rt_currentTime r; rt_next := rt_next r;
     rt_requests := rt_requests r; rt_promises := v; rt_waiters := rt_waiters r;
     rt_microtasks := rt_microtasks r; rt_trace := rt_trace r |}).
Definition set_waiters v := with_runtime (λ r,
  {| rt_currentTime := rt_currentTime r; rt_next := rt_next r;
     rt_requests := rt_requests r; rt_promises := rt_promises r; rt_waiters := v;
     rt_microtasks := rt_microtasks r; rt_trace := rt_trace r |}).
Definition set_microtasks v := with_runtime (λ r,
  {| rt_currentTime := rt_currentTime r; rt_next := rt_next r;
     rt_requests := rt_requests r; rt_promises := rt_promises r;
     rt_waiters := rt_waiters r; rt_microtasks := v; rt_trace := rt_trace r |}).
Definition set_trace v := with_runtime (λ r,
  {| rt_currentTime := rt_currentTime r; rt_next := rt_next r;
     rt_requests := rt_requests r; rt_promises := rt_promises r;
     rt_waiters := rt_waiters r; rt_microtasks := rt_microtasks r; rt_trace := v |}).

(** *** Run-time primitives *)

Definition emit (e : Effect) (w : World) : World := set_trace (trace w ++ [e]) w.

(** A fresh identity for a browser object or a promise. *)
Definition new_object (w : World) : nat * World :=
  let n := rt_next (runtime w) in (n, set_next (S n) w).

(** Start an asynchronous operation of the environment; the result is its
    promise. *)
Definition request (r : Request) (w : World) : nat * World :=
  let '(p, w) := new_object w in
  (p, emit (Call p r) (set_requests (<[p := r]> (requests w)) w)).

(** [await p] and [p.then(k)]: the continuation becomes a job at once when
    [p] is settled already, and waits for it otherwise. *)
Definition await (p : nat) (k : Cont) (w : World) : World :=
  match promises w !! p with
  | Some r => set_microtasks (microtasks w ++ [(k, r)]) w
  | None => set_waiters (waiters w ++ [(p, k)]) w
  end.

(** Settling [p] queues the continuations registered on it, in the order
    of registration. *)
Definition settle (p : nat) (r : Settlement) (w : World) : World :=
  let ready := filter (λ pk, pk.1 = p) (waiters w) in
  let others := filter (λ pk, pk.1 ≠ p) (waiters w) in
  let w := set_promises (<[p := r]> (promises w)) w in
  let w := set_waiters others w in
  set_microtasks (microtasks w ++ ((λ pk, (pk.2, r)) <$> ready)) w.

(** *** Strings as JavaScript sees them *)

(** The code units of a text of the program; its characters lie below
    256. *)
Definition code_units (s : string) : Text :=
  N_of_ascii <$> String.list_ascii_of_string s.

(** What [String.prototype.trim] strips, the white space and the line
    terminators of ECMAScript: U+0009 to U+000D, U+0020, U+00A0, U+1680,
    U+2000 to U+200A, U+2028, U+2029, U+202F, U+205F, U+3000 and U+FEFF.
    All of them are single code units. *)
Definition is_white_space (c : N) : bool :=
  ((9 <=? c) && (c <=? 13) || (c =? 32) || (c =? 160) || (c =? 0x1680)
   || (0x2000 <=? c) && (c <=? 0x200A) || (c =? 0x2028) || (c =? 0x2029)
   || (c =? 0x202F) || (c =? 0x205F) || (c =? 0x3000) || (c =? 0xFEFF))%N.

Fixpoint trimStart (s : Text) : Text :=
  match s with
  | c :: s' => if is_white_space c then trimStart s' else s
  | [] => []
  end.

Definition trimEnd (s : Text) : Text := reverse (trimStart (reverse s)).

Definition trim (s : Text) : Text := trimEnd (trimStart s).

(** A string in a condition: the empty string is false. *)
Definition truthy (s : string) : bool :=
  match s with EmptyString => false | String _ _ => true end.

Definition truthy_text (s : Text) : bool :=
  match s with [] => false | _ :: _ => true end.

(** [s += t.text] where [text] may be undefined. *)
Definition text_or_undefined (t : option Text) : Text :=
  default (code_units "undefined") t.

(** [Set.prototype.add] and [delete]; iteration is in insertion order. *)
Definition set_add (x : nat) (s : list nat) : list nat :=
  if decide (x ∈ s) then s else s ++ [x].

Definition set_delete (x : nat) (s : list nat) : list nat :=
  filter (λ y, y ≠ x) s.

Definition VOICES : list string := ["Zephyr"; "Puck"; "Charon"; "Kore"; "Fenrir"].

(** *** Methods of the component *)

(** [updateStatus], lines 478-481, and [updateError], lines 483-486. *)
Definition updateStatus (msg : string) (w : World) : World :=
  set_error "" (set_status msg w).

Definition updateError (msg : string) (w : World) : World :=
  set_status "" (set_error msg w).

(** Lines 391-397 of [initSession]: [return session], or the [catch]
    block.  [q] is the promise the method has returned. *)
Definition initSession_resume (q : nat) (r : Settlement) (w : World) : World :=
  match r with
  | Fulfilled session => settle q (Fulfilled session) w
  | Rejected message =>
      let w := set_sessionState Error w in
      let w := updateError message w in
      settle q (Rejected message) w
  end.

(** The message of the TypeError that reading [live] from an undefined
    [client] throws. *)
Definition client_TypeError : string :=
  "Cannot read properties of undefined (reading 'live')".

(** [initSession], lines 353-398, up to the [await] of [connect]; the
    result is the promise the method returns.  Without a client the read of
    [this.client.live] throws inside the [try], so the [catch] block runs
    before the method returns. *)
Definition initSession (voiceName systemInstruction : string) (w : World)
  : nat * World :=
  let w := set_sessionState Connecting w in
  let w := updateStatus "Connecting to Gemini..." w in
  if client w then
    let '(c, w) := request (Connect voiceName systemInstruction) w in
    let '(q, w) := new_object w in
    (q, await c (initSession_k q) w)
  else
    let '(q, w) := new_object w in
    (q, initSession_resume q (Rejected client_TypeError) w).

(** [initClient], lines 338-351.  [API_KEY] is [process.env.API_KEY].
    Without a key [new GoogleGenAI] throws at line 340 and the method ends
    there; the constructor does not look at the promise it returns, so
    nothing is shown, no connection is requested and [sessionPromise] stays
    undefined. *)
Definition initClient (API_KEY : option string) (w : World) : World :=
  let w := set_nextStartTime (currentTime w) w in
  match API_KEY with
  | Some _ =>
      let w := set_client true w in
      let '(q, w) := initSession (currentVoice w) (currentSystemInstruction w) w in
      set_sessionPromise q w
  | None => w
  end.

(** [playAudio], lines 458-468, up to the [await] of the decoding. *)
Definition playAudio (base64Audio : string) (w : World) : World :=
  let w := set_nextStartTime (Z.max (nextStartTime w) (currentTime w)) w in
  let '(p, w) := request (DecodeAudioData base64Audio) w in
  await p playAudio_k w.

(** Lines 469-475.  A failed decoding rejects the method's promise and
    nothing else happens. *)
Definition playAudio_resume (r : Settlement) (w : World) : World :=
  match r with
  | Fulfilled (VAudioBuffer audioBuffer) =>
      let '(source, w) := new_object w in
      let w := emit (SourceStart source (nextStartTime w)) w in
      let w := set_nextStartTime (nextStartTime w + duration audioBuffer) w in
      set_sources (set_add source (sources w)) w
  | _ => w
  end.

(** [handleMessage], lines 423-455, block by block.  Line 423 reads
    [parts[0]] of the [modelTurn] without asking whether [parts] is there:
    on a [modelTurn] without [parts] the read throws a TypeError. *)
Definition parts_missing (message : LiveServerMessage) : bool :=
  match modelTurn message with
  | Some content =>
      match parts content with
      | Some _ => false
      | None => true
      end
  | None => false
  end.

(** Lines 423-426: the audio of the first part is handed to [playAudio],
    which is not awaited. *)
Definition handleMessage_audio (message : LiveServerMessage) (w : World) : World :=
  let audio :=
    match modelTurn message with
    | Some content =>
        match parts content with
        | Some (part :: _) => inlineData part
        | _ => None
        end
    | None => None
    end in
  match audio with
  | Some data => if truthy data then playAudio data w else w
  | None => w
  end.

(** Lines 428-431. *)
Definition handleMessage_inputTranscription (message : LiveServerMessage)
    (w : World) : World :=
  match inputTranscription message with
  | Some t =>
      let w := set_currentInput (_currentInput w ++ text_or_undefined t) w in
      set_currentUserTranscription (_currentInput w) w
  | None => w
  end.

(** Lines 432-435. *)
Definition handleMessage_outputTranscription (message : LiveServerMessage)
    (w : World) : World :=
  match outputTranscription message with
  | Some t =>
      let w := set_currentOutput (_currentOutput w ++ text_or_undefined t) w in
      set_currentModelTranscription (_currentOutput w) w
  | None => w
  end.

(** Lines 437-449. *)
Definition handleMessage_turnComplete (message : LiveServerMessage)
    (w : World) : World :=
  if turnComplete message then
    let history := transcriptionHistory w in
    let history :=
      if truthy_text (trim (_currentInput w))
      then history ++ [{| speaker := You; text := _currentInput w |}]
      else history in
    let history :=
      if truthy_text (trim (_currentOutput w))
      then history ++ [{| speaker := Gemini; text := _currentOutput w |}]
      else history in
    let w := set_transcriptionHistory history w in
    let w := set_currentInput [] w in
    let w := set_currentOutput [] w in
    let w := set_currentUserTranscription [] w in
    set_currentModelTranscription [] w
  else w.

(** Lines 451-455. *)
Definition handleMessage_interrupted (message : LiveServerMessage)
    (w : World) : World :=
  if interrupted message then
    let w := foldl (λ w source, emit (SourceStop source) w) w (sources w) in
    let w := set_sources [] w in
    set_nextStartTime 0 w
  else w.

(** Lines 423-455 when the read of line 423 succeeds. *)
Definition handleMessage_rest (message : LiveServerMessage) (w : World) : World :=
  let w := handleMessage_audio message w in
  let w := handleMessage_inputTranscription message w in
  let w := handleMessage_outputTranscription message w in
  let w := handleMessage_turnComplete message w in
  handleMessage_interrupted message w.

(** Everything after the tool calls.  When line 423 throws, the handler
    ends there: the promise it has returned is rejected, which nobody looks
    at, and none of the blocks after that line runs. *)
Definition handleMessage_serverContent (message : LiveServerMessage)
    (w : World) : World :=
  if parts_missing message then w else handleMessage_rest message w.

(** Lines 401-421: the loop over the function calls.  A call of the known
    function suspends the handler on the session promise. *)
Fixpoint handleMessage_calls (fcs : list FunctionCall)
    (message : LiveServerMessage) (w : World) : World :=
  match fcs with
  | [] => handleMessage_serverContent message w
  | fc :: rest =>
      if String.eqb (fc_name fc) "change_visualizer_color" then
        let w := emit (SetColor (fc_color fc)) w in
        await (sessionPromise w) (handleMessage_k fc rest message) w
      else handleMessage_calls rest message w
  end.

Definition handleMessage (message : LiveServerMessage) (w : World) : World :=
  match toolCall message with
  | Some fcs => handleMessage_calls fcs message w
  | None => handleMessage_serverContent message w
  end.

(** Lines 412-418 and the rest of the loop. *)
Definition handleMessage_resume (fc : FunctionCall) (rest : list FunctionCall)
    (message : LiveServerMessage) (r : Settlement) (w : World) : World :=
  match r with
  | Fulfilled (VSession session) =>
      let w := emit (SendToolResponse session (fc_id fc) (fc_name fc)
                       ("Color changed to " +:+ fc_color fc)) w in
      handleMessage_calls rest message w
  | _ => w
  end.

(** [stopRecording], lines 770-784. *)
Definition stopRecording (w : World) : World :=
  let w :=
    match mediaRecorder w with
    | Some (r, Recording) | Some (r, Paused) =>
        let w := emit (RecorderStop r) w in
        let w := set_mediaRecorder (Some (r, Inactive)) w in
        updateStatus "Recording stopped. Download will start shortly." w
    | _ => w
    end in
  let w :=
    match screenStream w with
    | Some s => set_screenStream None (emit (TrackStop s) w)
    | None => w
    end in
  let w :=
    match recordingMixContext w with
    | Some c => set_recordingMixContext None (emit (ContextClose c) w)
    | None => w
    end in
  set_isRecording false w.

(** [stopConversation], lines 536-554. *)
Definition stopConversation (w : World) : World :=
  let w := stopRecording w in
  let w :=
    if isConversing w
    then updateStatus "Conversation stopped." (set_isConversing false w)
    else w in
  let w :=
    match scriptProcessorNode w with
    | Some n => set_scriptProcessorNode None (emit (Disconnect n) w)
    | None => w
    end in
  let w :=
    match sourceNode w with
    | Some n => set_sourceNode None (emit (Disconnect n) w)
    | None => w
    end in
  match mediaStream w with
  | Some s => set_mediaStream None (emit (TrackStop s) w)
  | None => w
  end.

(** [startConversation], lines 496-534, in its three parts. *)
Definition startConversation (w : World) : World :=
  if isConversing w || negb (bool_decide (sessionState w = Connected)) then w
  else let '(p, w) := request Resume w in await p startConversation_k1 w.

Definition startConversation_resume1 (r : Settlement) (w : World) : World :=
  match r with
  | Fulfilled _ =>
      let w := updateStatus "Requesting microphone access..." w in
      let '(p, w) := request (GetUserMedia false) w in
      await p startConversation_k2 w
  | Rejected _ => w
  end.

Definition startConversation_resume2 (r : Settlement) (w : World) : World :=
  match r with
  | Fulfilled (VMediaStream m) =>
      let w := set_mediaStream (Some m) w in
      let w := updateStatus "Microphone access granted." w in
      let '(src, w) := new_object w in
      let w := set_sourceNode (Some src) w in
      let '(proc, w) := new_object w in
      let w := set_scriptProcessorNode (Some proc) w in
      let w := set_isConversing true w in
      updateStatus "ðŸ”´ Listening..." w
  | Fulfilled _ => w
  | Rejected message =>
      let w := updateError ("Microphone Error: " +:+ message) w in
      stopConversation w
  end.

(** [toggleConversation], lines 488-494. *)
Definition toggleConversation (w : World) : World :=
  if isConversing w then stopConversation w else startConversation w.

(** The [onaudioprocess] handler, lines 515-521, and the callback it gives
    to [then]. *)
Definition onaudioprocess (block : nat) (w : World) : World :=
  if negb (isConversing w) then w
  else await (sessionPromise w) (onaudioprocess_then block) w.

Definition onaudioprocess_then_run (block : nat) (r : Settlement) (w : World) : World :=
  match r with
  | Fulfilled (VSession session) => emit (SendRealtimeInput session (Pcm block)) w
  | _ => w
  end.

(** [stopCamera], lines 608-620. *)
Definition stopCamera (w : World) : World :=
  if negb (isCameraOn w) then w
  else
    let w := set_isCameraOn false w in
    let w :=
      match videoStream w with
      | Some s => set_videoStream None (emit (TrackStop s) w)
      | None => w
      end in
    let w :=
      match frameIntervalRef w with
      | Some i => set_frameIntervalRef None (emit (ClearInterval i) w)
      | None => w
      end in
    set_srcObject None w.

(** [startCamera], lines 564-606, in its three parts. *)
Definition startCamera_catch (message : string) (w : World) : World :=
  set_isCameraOn false (updateError ("Camera error: " +:+ message) w).

Definition startCamera (w : World) : World :=
  if isCameraOn w then w
  else let '(p, w) := request (GetUserMedia true) w in await p startCamera_k1 w.

Definition startCamera_resume1 (r : Settlement) (w : World) : World :=
  match r with
  | Fulfilled (VMediaStream v) =>
      let w := set_videoStream (Some v) w in
      let w := set_srcObject (Some v) w in
      let '(p, w) := request Play w in
      await p startCamera_k2 w
  | Fulfilled _ => w
  | Rejected message => startCamera_catch message w
  end.

Definition startCamera_resume2 (r : Settlement) (w : World) : World :=
  match r with
  | Fulfilled _ =>
      let w := set_isCameraOn true w in
      let '(i, w) := new_object w in
      set_frameIntervalRef (Some i) w
  | Rejected message => startCamera_catch message w
  end.

(** [toggleCamera], lines 556-562. *)
Definition toggleCamera (w : World) : World :=
  if isCameraOn w then stopCamera w else startCamera w.

(** The interval callback, lines 575-600.  Drawing the frame, [toBlob] and
    [blobToBase64] are one operation of the environment, which yields the
    encoded frame or nothing. *)
Definition onframe (w : World) : World :=
  if negb (isCameraOn w) then w
  else let '(p, w) := request EncodeFrame w in await p frame_k w.

Definition onframe_resume (r : Settlement) (w : World) : World :=
  match r with
  | Fulfilled (VBase64 base64Data) => await (sessionPromise w) (frame_then base64Data) w
  | _ => w
  end.

Definition frame_then_run (base64Data : string) (r : Settlement) (w : World) : World :=
  match r with
  | Fulfilled (VSession session) => emit (SendRealtimeInput session (Jpeg base64Data)) w
  | _ => w
  end.

(** [handleVoiceChange], lines 622-624, and
    [handleSystemInstructionChange], lines 626-628. *)
Definition handleVoiceChange (value : string) (w : World) : World :=
  set_pendingVoice value w.

Definition handleSystemInstructionChange (value : string) (w : World) : World :=
  set_pendingSystemInstruction value w.

(** [applySettingsAndResetSession], lines 630-652.  [confirmed] is the
    answer to [window.confirm], asked only during a conversation.  When
    [sessionPromise] is undefined the [await] continues with [undefined]
    and nothing is closed. *)
Definition applySettingsAndResetSession (confirmed : bool) (w : World) : World :=
  if isConversing w && negb confirmed then w
  else
    let w := stopConversation w in
    let w := stopCamera w in
    await (sessionPromise w) applySettingsAndResetSession_k w.

Definition applySettingsAndResetSession_resume (r : Settlement) (w : World) : World :=
  match r with
  | Fulfilled v =>
      let w := match v with VSession c => emit (SessionClose c) w | _ => w end in
      let w := set_currentVoice (pendingVoice w) w in
      let w := set_currentSystemInstruction (pendingSystemInstruction w) w in
      let w := set_transcriptionHistory [] w in
      let w := updateStatus "Settings applied. Reconnecting..." w in
      let '(q, w) := initSession (currentVoice w) (currentSystemInstruction w) w in
      set_sessionPromise q w
  | Rejected _ => w
  end.

(** [startRecording], lines 681-768.  The mixing graph is built from
    [this.mediaStream]; without one [createMediaStreamSource] throws into
    the [catch] block. *)
Definition createMediaStreamSource_TypeError : string :=
  "Failed to execute 'createMediaStreamSource' on 'AudioContext': parameter 1 is not of type 'MediaStream'.".

Definition startRecording_catch (message : string) (w : World) : World :=
  set_isRecording false (updateError ("Screen capture failed: " +:+ message) w).

Definition startRecording (w : World) : World :=
  if negb (isConversing w) then
    updateError "Start a conversation before recording." w
  else
    let w := updateStatus "Requesting screen capture permission..." w in
    let '(p, w) := request GetDisplayMedia w in
    await p startRecording_k w.

Definition startRecording_resume (r : Settlement) (w : World) : World :=
  match r with
  | Fulfilled (VMediaStream screen) =>
      let w := set_screenStream (Some screen) w in
      let w := set_recordedChunks [] w in
      let '(ctx, w) := new_object w in
      let w := set_recordingMixContext (Some ctx) w in
      match mediaStream w with
      | Some _ =>
          let '(rec, w) := new_object w in
          let w := emit (RecorderStart rec) w in
          let w := set_mediaRecorder (Some (rec, Recording)) w in
          let w := set_isRecording true w in
          updateStatus "Recording session..." w
      | None => startRecording_catch createMediaStreamSource_TypeError w
      end
  | Fulfilled _ => w
  | Rejected message => startRecording_catch message w
  end.

(** [toggleRecording], lines 673-679. *)
Definition toggleRecording (w : World) : World :=
  if isRecording w then stopRecording w else startRecording w.

(** The recorder's handlers, lines 743-758. *)
Definition ondataavailable (size : Z) (chunk : nat) (w : World) : World :=
  if 0 <? size then set_recordedChunks (recordedChunks w ++ [chunk]) w else w.

Definition onstop (w : World) : World :=
  let w := emit (Download "session-recording.webm" (recordedChunks w)) w in
  set_recordedChunks [] w.

(** The session callbacks, lines 364-380. *)
Definition onopen (w : World) : World :=
  let w := set_sessionState Connected w in
  let w := updateStatus "Connected. Press record to talk." w in
  set_error "" w.

Definition onerror (message : string) (w : World) : World :=
  let w := set_sessionState Error w in
  let w := updateError ("Connection Error: " +:+ message) w in
  stopConversation w.

Definition onclose (w : World) : World :=
  let w := set_sessionState Idle w in
  let w := updateStatus "Connection closed." w in
  stopConversation w.

(** The [onended] handler of a playback source, line 472. *)
Definition onended (source : nat) (w : World) : World :=
  set_sources (set_delete source (sources w)) w.

(** [exportConversation], lines 654-671.  The method assigns no field; the
    result is what it shows or saves. *)
Definition speaker_name (s : Speaker) : string :=
  match s with You => "You" | Gemini => "Gemini" end.

(** [Array.prototype.join]. *)
Fixpoint Array_join (separator : Text) (l : list Text) : Text :=
  match l with
  | [] => []
  | x :: l' =>
      match l' with
      | [] => x
      | _ :: _ => x ++ separator ++ Array_join separator l'
      end
  end.

Inductive Exported :=
| Alert (message : string)
| Save (filename type : string) (content : Text).

(** Two line feeds. *)
Definition blank_line : Text := [10; 10]%N.

Definition formattedText (history : list TranscriptionEntry) : Text :=
  Array_join blank_line
    ((λ entry, code_units (speaker_name (speaker entry)) ++ code_units ": "
               ++ text entry) <$> history).

Definition exportConversation (w : World) : Exported :=
  if (length (transcriptionHistory w) =? 0)%nat
  then Alert "No conversation to export."
  else Save "conversation.txt" "text/plain;charset=utf-8"
         (formattedText (transcriptionHistory w)).

(** The status line of [render], line 954: [this.error || this.status]. *)
Definition statusLine (w : World) : string :=
  if truthy (error w) then error w else status w.

(** *** The event loop *)

(** Running a continuation with the outcome of the promise it waited for. *)
Definition run_cont (k : Cont) (r : Settlement) (w : World) : World :=
  match k with
  | initSession_k q => initSession_resume q r w
  | handleMessage_k fc rest message => handleMessage_resume fc rest message r w
  | playAudio_k => playAudio_resume r w
  | startConversation_k1 => startConversation_resume1 r w
  | startConversation_k2 => startConversation_resume2 r w
  | onaudioprocess_then block => onaudioprocess_then_run block r w
  | startCamera_k1 => startCamera_resume1 r w
  | startCamera_k2 => startCamera_resume2 r w
  | frame_k => onframe_resume r w
  | frame_then base64Data => frame_then_run base64Data r w
  | applySettingsAndResetSession_k => applySettingsAndResetSession_resume r w
  | startRecording_k => startRecording_resume r w
  end.

(** What can happen to the component.  The session callbacks carry the
    connection that delivers them; the handlers do not look at it. *)
Inductive Event :=
| EvMicrotask
| EvClock (t : Z)
| EvSettle (p : nat) (r : Settlement)
| EvOpen (c : nat)
| EvMessage (c : nat) (message : LiveServerMessage)
| EvError (c : nat) (message : string)
| EvClose (c : nat)
| EvAudioProcess (block : nat)
| EvEnded (source : nat)
| EvFrameTimer
| EvScreenEnded
| EvDataAvailable (size : Z) (chunk : nat)
| EvRecorderStop
| EvVoiceChange (value : string)
| EvSystemInstructionChange (value : string)
| EvApply (confirmed : bool)
| EvToggleConversation
| EvToggleCamera
| EvToggleRecording.

(** The environment fulfils a promise with a value of the right kind: a
    connection with its own session, a decoding with a buffer of
    non-negative duration, and so on.  Any operation may fail. *)
Definition well_typed (p : nat) (q : Request) (r : Settlement) : bool :=
  match r with
  | Rejected _ => true
  | Fulfilled v =>
      match q, v with
      | Connect _ _, VSession c => bool_decide (c = p)
      | DecodeAudioData _, VAudioBuffer b => 0 <=? duration b
      | Resume, VUndefined => true
      | GetUserMedia _, VMediaStream _ => true
      | Play, VUndefined => true
      | EncodeFrame, VBase64 _ => true
      | EncodeFrame, VUndefined => true
      | GetDisplayMedia, VMediaStream _ => true
      | _, _ => false
      end
  end.

Definition is_connection (c : nat) (w : World) : bool :=
  match requests w !! c with
  | Some (Connect _ _) => true
  | _ => false
  end.

(** [settingsChanged] of [render], lines 805-807. *)
Definition settingsChanged (w : World) : bool :=
  negb (String.eqb (pendingVoice w) (currentVoice w))
  || negb (String.eqb (pendingSystemInstruction w) (currentSystemInstruction w)).

(** One task: a callback of the environment or an action of the user.  The
    buttons are enabled as [render] says, lines 861-937. *)
Definition task (e : Event) (w : World) : option World :=
  match e with
  | EvMicrotask => None
  | EvClock t => if currentTime w <=? t then Some (set_currentTime t w) else None
  | EvSettle p r =>
      match requests w !! p, promises w !! p with
      | Some q, None => if well_typed p q r then Some (settle p r w) else None
      | _, _ => None
      end
  | EvOpen c => if is_connection c w then Some (onopen w) else None
  | EvMessage c message =>
      if is_connection c w then Some (handleMessage message w) else None
  | EvError c message => if is_connection c w then Some (onerror message w) else None
  | EvClose c => if is_connection c w then Some (onclose w) else None
  | EvAudioProcess block => Some (onaudioprocess block w)
  | EvEnded source => Some (onended source w)
  | EvFrameTimer => Some (onframe w)
  | EvScreenEnded =>
      match screenStream w with Some _ => Some (stopRecording w) | None => None end
  | EvDataAvailable size chunk =>
      match mediaRecorder w with
      | Some _ => Some (ondataavailable size chunk w)
      | None => None
      end
  | EvRecorderStop =>
      match mediaRecorder w with Some _ => Some (onstop w) | None => None end
  | EvVoiceChange value =>
      if bool_decide (value ∈ VOICES) then Some (handleVoiceChange value w) else None
  | EvSystemInstructionChange value => Some (handleSystemInstructionChange value w)
  | EvApply confirmed =>
      if settingsChanged w then Some (applySettingsAndResetSession confirmed w)
      else None
  | EvToggleConversation =>
      if bool_decide (sessionState w = Connected) then Some (toggleConversation w)
      else None
  | EvToggleCamera => Some (toggleCamera w)
  | EvToggleRecording => if isConversing w then Some (toggleRecording w) else None
  end.

(** One step of the loop.  A task starts only when no job is queued; a job
    is the first continuation of the queue. *)
Definition step (e : Event) (w : World) : option World :=
  match e, microtasks w with
  | EvMicrotask, (k, r) :: rest => Some (run_cont k r (set_microtasks rest w))
  | EvMicrotask, [] => None
  | _, [] => task e w
  | _, _ :: _ => None
  end.

Fixpoint run (es : list Event) (w : World) : option World :=
  match es with
  | [] => Some w
  | e :: es => w' ← step e w; run es w'
  end.

(** The field initialisers of the class, lines 48-91, with the output clock
    at [t0].  [client] and [sessionPromise] have no initialiser.  The store
    holds [undefined], identity [0], as settled with [undefined]: awaiting it
    continues at once with that value, as [await] does with what is not a
    promise, and a callback given to [then] on it never sends anything (in
    the code that call of [then] throws a TypeError, which nobody
    catches). *)
Definition field_initialisers (t0 : Z) : World :=
  {| ui := {| ui_isConversing := false; ui_isCameraOn := false;
              ui_isRecording := false; ui_sessionState := Idle;
              ui_status := ""; ui_error := "" |};
     transcript := {| tr_transcriptionHistory := [];
                      tr_currentUserTranscription := [];
                      tr_currentModelTranscription := [];
                      tr_currentInput := []; tr_currentOutput := [] |};
     settings := {| se_currentVoice := "Zephyr";
                    se_currentSystemInstruction :=
                      "You are a helpful and creative AI assistant.";
                    se_pendingVoice := "Zephyr";
                    se_pendingSystemInstruction :=
                      "You are a helpful and creative AI assistant." |};
     playback := {| pb_nextStartTime := 0; pb_sources := [] |};
     capture := {| cp_mediaStream := None; cp_sourceNode := None;
                   cp_scriptProcessorNode := None |};
     camera := {| cm_videoStream := None; cm_frameIntervalRef := None;
                  cm_srcObject := None |};
     recorder := {| rc_mediaRecorder := None; rc_recordedChunks := [];
                    rc_screenStream := None; rc_recordingMixContext := None |};
     client := false;
     sessionPromise := 0;
     runtime := {| rt_currentTime := t0; rt_next := 1; rt_requests := ∅;
                   rt_promises := {[0%nat := Fulfilled VUndefined]};
                   rt_waiters := []; rt_microtasks := []; rt_trace := [] |} |}.

(** [constructor], lines 333-336. *)
Definition constructor (API_KEY : option string) (t0 : Z) : World :=
  initClient API_KEY (field_initialisers t0).

End GdmLiveAudio.

Import GdmLiveAudio.

(** * Vocabulary of the properties *)

(** A message that carries a single audio part. *)
Definition audioMessage (data : string) : LiveServerMessage :=
  {| toolCall := None;
     modelTurn := Some {| parts := Some [{| inlineData := Some data |}] |};
     inputTranscription := None; outputTranscription := None;
     turnComplete := false; interrupted := false |}.




(** The start times given to [source.start], in the order of the calls. *)
Definition starts (w : World) : list Z :=
  omap (λ e, match e with SourceStart _ t => Some t | _ => None end) (trace w).

(** Identities are handed out in increasing order, so at any moment every
    request, every settled promise and every waiting continuation names an
    identity that has been handed out already. *)
Definition well_formed (w : World) : Prop :=
  map_Forall (λ p _, (p < rt_next (runtime w))%nat) (requests w)
  ∧ map_Forall (λ p _, (p < rt_next (runtime w))%nat) (promises w)
  ∧ Forall (λ pk, (pk.1 < rt_next (runtime w))%nat) (waiters w).

#[global] Instance well_formed_dec w : Decision (well_formed w).
Proof. unfold well_formed. apply _. Defined.




(** The fields as they are before any conversation or recording has been
    started. *)
Definition never_started (w : World) : Prop :=
  isConversing w = false ∧ mediaStream w = None ∧ sourceNode w = None
  ∧ scriptProcessorNode w = None ∧ isRecording w = false
  ∧ mediaRecorder w = None ∧ screenStream w = None
  ∧ recordingMixContext w = None.

(** The accumulators as the turn-completion block of [handleMessage] finds
    them: the partial texts of the same message are appended first. *)
Definition userText (message : LiveServerMessage) (w : World) : Text :=
  match inputTranscription message with
  | Some t => _currentInput w ++ text_or_undefined t
  | None => _currentInput w
  end.

Definition modelText (message : LiveServerMessage) (w : World) : Text :=
  match outputTranscription message with
  | Some t => _currentOutput w ++ text_or_undefined t
  | None => _currentOutput w
  end.

(** A text with at least one code unit that is not white space. *)
Fixpoint non_blank (s : Text) : bool :=
  match s with
  | [] => false
  | c :: s' => negb (is_white_space c) || non_blank s'
  end.

(** [w'] differs from [w] in its run-time part by the effects added to the
    trace only. *)
Definition only_emits (w w' : World) : Prop :=
  currentTime w' = currentTime w ∧ rt_next (runtime w') = rt_next (runtime w)
  ∧ requests w' = requests w ∧ promises w' = promises w
  ∧ waiters w' = waiters w ∧ microtasks w' = microtasks w
  ∧ ∃ es, trace w' = trace w ++ es.

(** [initSession_k q] settles [q]; a continuation is in order when that
    identity has been handed out. *)
Definition cont_ok (n : nat) (k : Cont) : Prop :=
  match k with
  | initSession_k q => (q < n)%nat
  | _ => True
  end.

(** What every step of the event loop maintains. *)
Definition invariant (w : World) : Prop :=
  map_Forall (λ p _, (p < rt_next (runtime w))%nat) (requests w)
  ∧ map_Forall (λ p _, (p < rt_next (runtime w))%nat) (promises w)
  ∧ Forall (λ pk, (pk.1 < rt_next (runtime w))%nat
                  ∧ cont_ok (rt_next (runtime w)) pk.2) (waiters w)
  ∧ Forall (λ kr, cont_ok (rt_next (runtime w)) kr.1) (microtasks w)
  ∧ (sessionPromise w < rt_next (runtime w))%nat.

(** The states the component can be in: those a run of events leads to
    from the construction of the component, with or without an API key. *)
Definition reachable (w : World) : Prop :=
  ∃ API_KEY t0 es, run es (constructor API_KEY t0) = Some w.

(** [w'] has the identities, promises and queues of [w]. *)
Definition same_jobs (w w' : World) : Prop :=
  rt_next (runtime w') = rt_next (runtime w)
  ∧ requests w' = requests w ∧ promises w' = promises w
  ∧ waiters w' = waiters w ∧ microtasks w' = microtasks w
  ∧ sessionPromise w' = sessionPromise w.

(** ** Scenarios

    Identities in a run from [constructor]: 1 is the first connection and 2
    the session promise; later ones are handed out in the order of the
    calls. *)

(** The scenarios run with an API key configured. *)
Definition configured : option string := Some "key".

(** The first connection opens: its promise is fulfilled, [initSession]
    returns, and [onopen] is called. *)
Definition session_opens : list Event :=
  [EvSettle 1 (Fulfilled (VSession 1)); EvMicrotask; EvOpen 1].

(** The state once the first connection is open, with the clock at [t0]. *)
Definition connected_world (t0 : Z) : World :=
  default (constructor configured t0)
    (run session_opens (constructor configured t0)).



(** Three chunks of 10 frames whose decodings overlap: A and B arrive at
    clock time 100 and C at 500; A (request 3) and C (request 6) are decoded
    promptly, B (request 4) only after C has been started. *)
Definition overlapping_decodings : list Event :=
  session_opens
  ++ [EvClock 100; EvMessage 1 (audioMessage "AAAA");
      EvMessage 1 (audioMessage "BBBB");
      EvSettle 3 (Fulfilled (VAudioBuffer {| duration := 10 |})); EvMicrotask;
      EvClock 500; EvMessage 1 (audioMessage "CCCC");
      EvSettle 6 (Fulfilled (VAudioBuffer {| duration := 10 |})); EvMicrotask;
      EvSettle 4 (Fulfilled (VAudioBuffer {| duration := 10 |})); EvMicrotask].

(** A chunk of two seconds is scheduled at clock time 100. *)
Definition playing : list Event :=
  session_opens
  ++ [EvClock 100; EvMessage 1 (audioMessage "AAAA");
      EvSettle 3 (Fulfilled (VAudioBuffer {| duration := 48000 |}));
      EvMicrotask].

Definition playing_world : World :=
  default (constructor configured 0) (run playing (constructor configured 0)).

Definition interruptedMessage : LiveServerMessage :=
  {| toolCall := None; modelTurn := None; inputTranscription := None;
     outputTranscription := None; turnComplete := false; interrupted := true |}.

(** One message that carries audio and the interruption signal. *)
Definition interruptedAudio (data : string) : LiveServerMessage :=
  {| toolCall := None;
     modelTurn := Some {| parts := Some [{| inlineData := Some data |}] |};
     inputTranscription := None; outputTranscription := None;
     turnComplete := false; interrupted := true |}.

Definition interruptedWithAudio : LiveServerMessage := interruptedAudio "BBBB".

(** While the first chunk plays, the message with audio and interruption
    arrives at clock time 200; its audio decodes to 10 frames. *)
Definition interrupted_while_decoding : list Event :=
  playing
  ++ [EvClock 200; EvMessage 1 interruptedWithAudio;
      EvSettle 5 (Fulfilled (VAudioBuffer {| duration := 10 |})); EvMicrotask].

(** The camera is switched on: the stream is granted and the preview
    plays. *)
Definition camera_on : list Event :=
  session_opens
  ++ [EvToggleCamera; EvSettle 3 (Fulfilled (VMediaStream 7)); EvMicrotask;
      EvSettle 4 (Fulfilled VUndefined); EvMicrotask].

(** A conversation is started: the input context resumes and the
    microphone is granted. *)
Definition conversing : list Event :=
  session_opens
  ++ [EvToggleConversation; EvSettle 3 (Fulfilled VUndefined); EvMicrotask;
      EvSettle 4 (Fulfilled (VMediaStream 9)); EvMicrotask].

Definition conversing_world : World :=
  default (constructor configured 0) (run conversing (constructor configured 0)).


(** A turn of the user, complete in one message. *)
Definition staleTurn : LiveServerMessage :=
  {| toolCall := None; modelTurn := None;
     inputTranscription := Some (Some (code_units "stale"));
     outputTranscription := None;
     turnComplete := true; interrupted := false |}.


Definition turnCompleteMessage : LiveServerMessage :=
  {| toolCall := None; modelTurn := None; inputTranscription := None;
     outputTranscription := None; turnComplete := true; interrupted := false |}.

(** The user asks for a conversation and, while the microphone prompt is
    open, applies a new voice: the old session is closed and a new
    connection (5) is requested.  The microphone is granted, one block is
    captured while the new session promise (6) is pending, and then the
    close event of the old session arrives and stops the conversation. *)
Definition block_pending_at_stop : list Event :=
  session_opens
  ++ [EvToggleConversation; EvSettle 3 (Fulfilled VUndefined); EvMicrotask;
      EvVoiceChange "Puck"; EvApply true; EvMicrotask;
      EvSettle 4 (Fulfilled (VMediaStream 9)); EvMicrotask;
      EvAudioProcess 0; EvClose 1].

(** The new connection is established: [initSession] returns and the
    callbacks registered on the session promise run. *)
Definition new_session_resolves : list Event :=
  [EvSettle 5 (Fulfilled (VSession 5)); EvMicrotask; EvMicrotask].

(** ** Vocabulary of the further properties *)

(** [w] is between two tasks and well formed, and the next identity to be
    handed out is [n]. *)
Definition ready (n : nat) (w : World) : Prop :=
  well_formed w ∧ microtasks w = [] ∧ rt_next (runtime w) = n.

(** The state once the environment has settled, with [res], the promise of
    a request [r] made in [w]. *)
Definition requested (r : Request) (res : Settlement) (w : World) : World :=
  let '(p, w) := request r w in set_promises (<[p := res]> (promises w)) w.

(** The function call the component answers. *)
Definition known_call (fc : FunctionCall) : bool :=
  String.eqb (fc_name fc) "change_visualizer_color".

(** What the loop over the function calls does when the session promise is
    fulfilled with [session]. *)
Definition tool_effects (session : nat) (fcs : list FunctionCall) : list Effect :=
  flat_map
    (λ fc, if known_call fc
           then [SetColor (fc_color fc);
                 SendToolResponse session (fc_id fc) (fc_name fc)
                   ("Color changed to " +:+ fc_color fc)]
           else [])
    fcs.

Definition known_calls (fcs : list FunctionCall) : nat :=
  length (filter (λ fc, known_call fc = true) fcs).

(** A message that carries one fragment of a transcription: of what the
    user said or of what the assistant says.  The text may be absent. *)
Inductive Fragment := Heard (t : option Text) | Spoken (t : option Text).

Definition fragmentMessage (f : Fragment) : LiveServerMessage :=
  match f with
  | Heard t =>
      {| toolCall := None; modelTurn := None; inputTranscription := Some t;
         outputTranscription := None; turnComplete := false;
         interrupted := false |}
  | Spoken t =>
      {| toolCall := None; modelTurn := None; inputTranscription := None;
         outputTranscription := Some t; turnComplete := false;
         interrupted := false |}
  end.

(** The fragments of each side, joined in the order of arrival. *)
Fixpoint heard (fs : list Fragment) : Text :=
  match fs with
  | [] => []
  | Heard t :: fs => text_or_undefined t ++ heard fs
  | Spoken _ :: fs => heard fs
  end.

Fixpoint spoken (fs : list Fragment) : Text :=
  match fs with
  | [] => []
  | Heard _ :: fs => spoken fs
  | Spoken t :: fs => text_or_undefined t ++ spoken fs
  end.

(** Messages handled one after the other, none of them suspended. *)
Definition handleMessages (ms : list LiveServerMessage) (w : World) : World :=
  foldl (λ w m, handleMessage m w) w ms.

(** No camera, and no capture graph. *)
Definition camera_off : Camera :=
  {| cm_videoStream := None; cm_frameIntervalRef := None; cm_srcObject := None |}.

Definition capture_off : Capture :=
  {| cp_mediaStream := None; cp_sourceNode := None;
     cp_scriptProcessorNode := None |}.

(** The recorder is recording or paused. *)
Definition recorder_active (w : World) : bool :=
  match mediaRecorder w with
  | Some (_, Recording) | Some (_, Paused) => true
  | _ => false
  end.

(** The status line after a stop: the message of the last thing that was
    stopped, or [shown] when nothing was running. *)
Definition status_after_stop (shown : string) (w : World) : string :=
  if isConversing w then "Conversation stopped."
  else if recorder_active w
       then "Recording stopped. Download will start shortly."
       else shown.

(** The calls [stopRecording] and [stopConversation] make, in order. *)
Definition stopRecording_effects (w : World) : list Effect :=
  match mediaRecorder w with
  | Some (r, Recording) | Some (r, Paused) => [RecorderStop r]
  | _ => []
  end
  ++ match screenStream w with Some s => [TrackStop s] | None => [] end
  ++ match recordingMixContext w with Some c => [ContextClose c] | None => [] end.

Definition stopConversation_effects (w : World) : list Effect :=
  stopRecording_effects w
  ++ match scriptProcessorNode w with Some n => [Disconnect n] | None => [] end
  ++ match sourceNode w with Some n => [Disconnect n] | None => [] end
  ++ match mediaStream w with Some s => [TrackStop s] | None => [] end.


(** The recorder field once the recorder has been stopped. *)
Definition stopped (r : option (nat * RecordingState))
  : option (nat * RecordingState) :=
  match r with
  | Some (r, _) => Some (r, Inactive)
  | None => None
  end.

(** What the flags of the component promise about its resources and about
    what it shows, on the parts of the state that are concerned: the capture
    graph exists exactly during a conversation, a recording runs only during
    a conversation and with its resources, the status and the error are not
    both set, and the interim transcriptions are the accumulators. *)
Definition consistent_of (u : Ui) (t : Transcript) (c : Capture) (r : Recorder)
  : Prop :=
  (if ui_isConversing u
   then is_Some (cp_mediaStream c) ∧ is_Some (cp_sourceNode c)
        ∧ is_Some (cp_scriptProcessorNode c)
   else cp_mediaStream c = None ∧ cp_sourceNode c = None
        ∧ cp_scriptProcessorNode c = None)
  ∧ (ui_isRecording u = true →
     ui_isConversing u = true
     ∧ (∃ rec, rc_mediaRecorder r = Some (rec, Recording))
     ∧ is_Some (rc_screenStream r) ∧ is_Some (rc_recordingMixContext r))
  ∧ (ui_status u = EmptyString ∨ ui_error u = EmptyString)
  ∧ tr_currentUserTranscription t = tr_currentInput t
  ∧ tr_currentModelTranscription t = tr_currentOutput t.

Definition consistent (w : World) : Prop :=
  consistent_of (ui w) (transcript w) (capture w) (recorder w).

(** [w'] has the flags, texts and resources of [w]. *)
Definition same_parts (w w' : World) : Prop :=
  ui w' = ui w ∧ transcript w' = transcript w ∧ capture w' = capture w
  ∧ recorder w' = recorder w.

(** ** Further scenarios *)

(** The first connection cannot be established. *)
Definition connection_fails : list Event :=
  [EvSettle 1 (Rejected "offline"); EvMicrotask].

Definition failed_world : World :=
  default (constructor configured 0) (run connection_fails (constructor configured 0)).

(** The first session is open; then Puck is applied and the new connection
    (3) cannot be established.  The session promise (4) is rejected, while
    the connection of the first session (1) was established. *)
Definition reset_fails : list Event :=
  session_opens
  ++ [EvVoiceChange "Puck"; EvApply true; EvMicrotask;
      EvSettle 3 (Rejected "offline"); EvMicrotask].

Definition reset_failed_world : World :=
  default (constructor configured 0)
    (run reset_fails (constructor configured 0)).

(** After the failure the user picks another voice. *)
Definition failed_world_Puck : World :=
  default (constructor configured 0)
    (run (connection_fails ++ [EvVoiceChange "Puck"]) (constructor configured 0)).

Definition camera_world : World :=
  default (constructor configured 0) (run camera_on (constructor configured 0)).

(** The camera is switched on although the first connection could not be
    established. *)
Definition failed_camera_world : World :=
  default (constructor configured 0)
    (run (connection_fails
          ++ [EvToggleCamera; EvSettle 3 (Fulfilled (VMediaStream 7));
              EvMicrotask; EvSettle 4 (Fulfilled VUndefined); EvMicrotask])
       (constructor configured 0)).

(** During a conversation the screen capture is granted (stream 11) and the
    recording starts. *)
Definition recording : list Event :=
  conversing
  ++ [EvToggleRecording; EvSettle 7 (Fulfilled (VMediaStream 11)); EvMicrotask].

Definition recording_world : World :=
  default (constructor configured 0) (run recording (constructor configured 0)).

(** Calls of the known function and of another one. *)
Definition redCall : FunctionCall :=
  {| fc_id := "call-1"; fc_name := "change_visualizer_color"; fc_color := "red" |}.

Definition blueCall : FunctionCall :=
  {| fc_id := "call-3"; fc_name := "change_visualizer_color"; fc_color := "blue" |}.

Definition otherCall : FunctionCall :=
  {| fc_id := "call-2"; fc_name := "set_volume"; fc_color := "" |}.

(** A message with tool calls that also completes the turn. *)
Definition toolMessage (fcs : list FunctionCall) : LiveServerMessage :=
  {| toolCall := Some fcs; modelTurn := None; inputTranscription := None;
     outputTranscription := None; turnComplete := true; interrupted := false |}.

(** One or two turns of the user have been completed. *)
Definition one_turn_world : World := handleMessage staleTurn (connected_world 0).

Definition two_turns_world : World := handleMessage staleTurn one_turn_world.

Arguments step : simpl never.

(** * Proof steps shared by the properties *)

Ltac destruct_world w := destruct w as [[] [] [] [] [] [] [] ? ? []].

(** Unfold the field accessors, the assignments and the run-time
    primitives.  Case analysis on a scrutinee comes before this, or the
    term grows with every branch. *)
Ltac fields :=
  lazy [isConversing isCameraOn isRecording sessionState status error
    transcriptionHistory currentUserTranscription currentModelTranscription
    _currentInput _currentOutput currentVoice currentSystemInstruction
    pendingVoice pendingSystemInstruction nextStartTime sources mediaStream
    sourceNode scriptProcessorNode videoStream frameIntervalRef srcObject
    mediaRecorder recordedChunks screenStream recordingMixContext
    currentTime requests promises waiters microtasks trace
    with_ui with_transcript with_settings with_playback with_capture
    with_camera with_recorder with_runtime set_client set_sessionPromise
    set_isConversing set_isCameraOn set_isRecording set_sessionState
    set_status set_error set_transcriptionHistory
    set_currentUserTranscription set_currentModelTranscription
    set_currentInput set_currentOutput set_currentVoice
    set_currentSystemInstruction set_pendingVoice
    set_pendingSystemInstruction set_nextStartTime set_sources
    set_mediaStream set_sourceNode set_scriptProcessorNode set_videoStream
    set_frameIntervalRef set_srcObject set_mediaRecorder set_recordedChunks
    set_screenStream set_recordingMixContext set_currentTime set_next
    set_requests set_promises set_waiters set_microtasks set_trace
    emit new_object request await updateStatus updateError
    ui transcript settings playback capture camera recorder client
    sessionPromise runtime ui_isConversing ui_isCameraOn ui_isRecording ui_sessionState
    ui_status ui_error tr_transcriptionHistory tr_currentUserTranscription
    tr_currentModelTranscription tr_currentInput tr_currentOutput
    se_currentVoice se_currentSystemInstruction se_pendingVoice
    se_pendingSystemInstruction pb_nextStartTime pb_sources cp_mediaStream
    cp_sourceNode cp_scriptProcessorNode cm_videoStream cm_frameIntervalRef
    cm_srcObject rc_mediaRecorder rc_recordedChunks rc_screenStream
    rc_recordingMixContext rt_currentTime rt_next rt_requests rt_promises
    rt_waiters rt_microtasks rt_trace] in *.

(** Close the frame conditions of a method that only assigns fields and
    emits effects. *)
Ltac emits :=
  repeat apply conj; try reflexivity;
  first [ by exists []; rewrite app_nil_r
        | eexists; rewrite <- ?app_assoc; reflexivity ].

(** Close a frame condition that holds by unfolding the assignments. *)
Ltac same := repeat split; reflexivity.

(** Decide a decidable proposition about a concrete state by evaluation. *)
Ltac by_evaluation := apply (bool_decide_unpack _); vm_compute; exact I.

(** ** The event loop *)

Lemma step_task e w :
  microtasks w = [] → e ≠ EvMicrotask → step e w = task e w.
Proof. intros Hm He. unfold step. rewrite Hm. by destruct e. Qed.


Lemma step_message c m w :
  microtasks w = [] → is_connection c w = true →
  step (EvMessage c m) w = Some (handleMessage m w).
Proof. intros Hm Hc. rewrite step_task by done. simpl. by rewrite Hc. Qed.

Lemma step_settle p q r w :
  microtasks w = [] → requests w !! p = Some q → promises w !! p = None →
  well_typed p q r = true → step (EvSettle p r) w = Some (settle p r w).
Proof.
  intros Hm Hq Hp Ht. rewrite step_task by done. simpl. by rewrite Hq, Hp, Ht.
Qed.

Lemma step_microtask k r rest w :
  microtasks w = (k, r) :: rest →
  step EvMicrotask w = Some (run_cont k r (set_microtasks rest w)).
Proof. intros Hm. unfold step. by rewrite Hm. Qed.

Lemma step_message_any_connection c1 c2 m w :
  is_connection c1 w = true → is_connection c2 w = true →
  step (EvMessage c1 m) w = step (EvMessage c2 m) w.
Proof.
  intros H1 H2. unfold step. destruct (microtasks w); [|done].
  simpl. by rewrite H1, H2.
Qed.

(** The scenario states are reached by their runs. *)
Lemma connected_world_reached t0 :
  run session_opens (constructor configured t0) = Some (connected_world t0).
Proof. vm_compute; reflexivity. Qed.

Lemma playing_world_reached :
  run playing (constructor configured 0) = Some playing_world.
Proof. vm_compute; reflexivity. Qed.

Lemma conversing_world_reached :
  run conversing (constructor configured 0) = Some conversing_world.
Proof. vm_compute; reflexivity. Qed.

Lemma filter_waiters_fresh (l : list (nat * Cont)) (n : nat) :
  Forall (λ pk, (pk.1 < n)%nat) l →
  filter (λ pk, pk.1 = n) l = [] ∧ filter (λ pk, pk.1 ≠ n) l = l.
Proof.
  induction 1 as [|[p k] l Hp _ [IH1 IH2]]; [done|]. simpl in Hp.
  rewrite !filter_cons. simpl.
  rewrite decide_False, decide_True by lia. by rewrite IH1, IH2.
Qed.

Lemma map_Forall_fresh {A} (m : gmap nat A) (n : nat) :
  map_Forall (λ p _, (p < n)%nat) m → m !! n = None.
Proof.
  intros H. destruct (m !! n) eqn:E; [|done].
  apply (map_Forall_lookup_1 _ _ _ _ H) in E. lia.
Qed.

Lemma settle_queues p k r w :
  (p, k) ∈ waiters w → (k, r) ∈ microtasks (settle p r w).
Proof.
  intros H. unfold settle. destruct_world w. fields.
  apply elem_of_app. right. apply (list_elem_of_fmap_2' _ _ (p, k)); [|done].
  apply list_elem_of_filter. by split.
Qed.

(** ** Running a script of events *)

(** Establish [ready n w] for a concrete state by evaluation. *)
Ltac ready_by_evaluation :=
  split; [by_evaluation|split; vm_compute; reflexivity].

Lemma request_settled r res k w :
  well_formed w → microtasks w = [] →
  well_typed (rt_next (runtime w)) r res = true →
  run [EvSettle (rt_next (runtime w)) res; EvMicrotask]
      (let '(p, w1) := request r w in await p k w1)
  = Some (run_cont k res (requested r res w)).
Proof.
  intros (Hq & Hp & Hw) Hm Ht.
  destruct (filter_waiters_fresh _ _ Hw) as [Hf1 Hf2].
  pose proof (map_Forall_fresh _ _ Hq) as Hqn.
  pose proof (map_Forall_fresh _ _ Hp) as Hpn.
  unfold requested. destruct_world w. fields. subst rt_microtasks0.
  rewrite Hpn. cbn [run].
  rewrite (step_settle rt_next0 r).
  2:{ by fields. }
  2:{ fields. apply lookup_insert_eq. }
  2:{ by fields. }
  2:{ done. }
  unfold settle. fields.
  rewrite !filter_app, Hf1, Hf2. rewrite !filter_cons. cbn [fst snd].
  rewrite (decide_True (P := rt_next0 = rt_next0)) by done.
  rewrite (decide_False (P := rt_next0 ≠ rt_next0)) by (intros H; by apply H).
  rewrite !filter_nil, app_nil_r. cbn [app fmap list_fmap fst snd].
  cbn [mbind option_bind].
  erewrite step_microtask by (fields; reflexivity).
  cbn [mbind option_bind]. fields. reflexivity.
Qed.

Lemma requested_well_formed r res w :
  well_formed w → microtasks w = [] →
  well_formed (requested r res w) ∧ microtasks (requested r res w) = [].
Proof.
  intros (Hq & Hp & Hw) Hm. unfold requested, well_formed.
  destruct_world w. fields. subst.
  split; [|done]. split; [|split].
  - apply map_Forall_insert_2; [lia|].
    eapply map_Forall_impl; [exact Hq|]. simpl. intros. lia.
  - apply map_Forall_insert_2; [lia|].
    eapply map_Forall_impl; [exact Hp|]. simpl. intros. lia.
  - eapply Forall_impl; [exact Hw|]. simpl. intros. lia.
Qed.

Lemma await_settled p res k w :
  promises w !! p = Some res → microtasks w = [] →
  step EvMicrotask (await p k w) = Some (run_cont k res w).
Proof.
  intros Hp Hm. destruct_world w. fields. subst. rewrite Hp.
  erewrite step_microtask by (fields; reflexivity).
  fields. reflexivity.
Qed.

Lemma ready_requested r res n w : ready n w → ready (S n) (requested r res w).
Proof.
  intros (Hwf & Hm & Hn).
  destruct (requested_well_formed r res w Hwf Hm) as [H1 H2].
  split; [done|]. split; [done|].
  unfold requested. destruct_world w. fields. by subst.
Qed.

Lemma ready_same n w w' : runtime w' = runtime w → ready n w → ready n w'.
Proof.
  unfold ready, well_formed, requests, promises, waiters, microtasks.
  by intros ->.
Qed.

Ltac same_runtime := eapply ready_same; [fields; reflexivity|].

Lemma run_task e es w w' :
  microtasks w = [] → e ≠ EvMicrotask → task e w = Some w' →
  run (e :: es) w = run es w'.
Proof. intros Hm He Ht. cbn [run]. by rewrite step_task, Ht. Qed.

Lemma run_settle p q r es w :
  microtasks w = [] → requests w !! p = Some q → promises w !! p = None →
  well_typed p q r = true →
  run (EvSettle p r :: es) w = run es (settle p r w).
Proof. intros. cbn [run]. by erewrite step_settle. Qed.

Lemma run_microtask k r rest es w :
  microtasks w = (k, r) :: rest →
  run (EvMicrotask :: es) w = run es (run_cont k r (set_microtasks rest w)).
Proof. intros. cbn [run]. by erewrite step_microtask. Qed.

(** A request made in a ready state, settled at once: the continuation
    runs in the state [requested]. *)
Lemma run_request r res k es n w :
  ready n w → well_typed n r res = true →
  run (EvSettle n res :: EvMicrotask :: es)
      (let '(p, w1) := request r w in await p k w1)
  = run es (run_cont k res (requested r res w)).
Proof.
  intros (Hwf & Hm & <-) Ht.
  pose proof (request_settled r res k w Hwf Hm Ht) as H.
  cbn [run] in *.
  destruct (step _ _) as [w1|]; [|done]. cbn [mbind option_bind] in *.
  destruct (step _ w1) as [w2|]; [|done]. cbn [mbind option_bind] in *.
  by injection H as ->.
Qed.

Lemma run_await p res k es w :
  promises w !! p = Some res → microtasks w = [] →
  run (EvMicrotask :: es) (await p k w) = run es (run_cont k res w).
Proof. intros Hp Hm. cbn [run]. by rewrite (await_settled p res). Qed.

Lemma requested_promise r res q x w :
  well_formed w → promises w !! q = Some x →
  promises (requested r res w) !! q = Some x.
Proof.
  intros (_ & Hp & _) Hq.
  pose proof (map_Forall_fresh _ _ Hp) as Hpn.
  unfold requested. destruct_world w. fields.
  rewrite lookup_insert_ne; [done|]. intros <-. congruence.
Qed.

Lemma requested_session r res x w :
  well_formed w → promises w !! sessionPromise w = Some x →
  promises (requested r res w) !! sessionPromise (requested r res w) = Some x.
Proof.
  intros Hwf Hq.
  pose proof (requested_promise r res _ x w Hwf Hq) as H.
  unfold requested in *. destruct_world w. exact H.
Qed.

Lemma toggleConversation_task w :
  sessionState w = Connected →
  task EvToggleConversation w = Some (toggleConversation w).
Proof. intros H. cbn [task]. by rewrite bool_decide_true. Qed.

Lemma toggleRecording_task w :
  isConversing w = true →
  task EvToggleRecording w = Some (toggleRecording w).
Proof. intros H. cbn [task]. by rewrite H. Qed.

Lemma recording_world_reached :
  run recording (constructor configured 0) = Some recording_world.
Proof. vm_compute; reflexivity. Qed.

(** ** White space *)

(** The white space of [trim], code unit by code unit, in decimal. *)
Lemma is_white_space_spec c :
  is_white_space c = true
  ↔ (9 ≤ c ≤ 13 ∨ c = 32 ∨ c = 160 ∨ c = 5760 ∨ 8192 ≤ c ≤ 8202
     ∨ c = 8232 ∨ c = 8233 ∨ c = 8239 ∨ c = 8287 ∨ c = 12288
     ∨ c = 65279)%N.
Proof.
  unfold is_white_space.
  rewrite !orb_true_iff, !andb_true_iff, !N.leb_le, !N.eqb_eq. lia.
Qed.

(** An ideographic space, a byte order mark, a line separator and a
    no-break space around a word are stripped; a zero-width space (U+200B)
    is not white space. *)
Lemma trim_strips_unicode_white_space :
  trim ([0x3000; 0xFEFF] ++ code_units "ok" ++ [0x2028; 0xA0])%N
  = code_units "ok"
  ∧ non_blank [0x3000; 0xFEFF; 0x2028; 0xA0]%N = false
  ∧ non_blank [0x200B]%N = true.
Proof. by vm_compute. Qed.

Lemma trimStart_truthy s : truthy_text (trimStart s) = non_blank s.
Proof.
  induction s as [|c s IH]; [done|]. cbn [trimStart non_blank].
  destruct (is_white_space c); [exact IH|done].
Qed.

Lemma trimStart_non_blank s : non_blank (trimStart s) = non_blank s.
Proof.
  induction s as [|c s IH]; [done|]. cbn [trimStart non_blank].
  destruct (is_white_space c) eqn:E; [exact IH|]. cbn [non_blank].
  by rewrite E.
Qed.

Lemma non_blank_app s1 s2 :
  non_blank (s1 ++ s2) = non_blank s1 || non_blank s2.
Proof.
  induction s1 as [|c s1 IH]; [done|]. cbn [app non_blank]. rewrite IH.
  by rewrite orb_assoc.
Qed.

Lemma non_blank_reverse s : non_blank (reverse s) = non_blank s.
Proof.
  induction s as [|c s IH]; [done|].
  rewrite reverse_cons, non_blank_app, IH. cbn [non_blank].
  rewrite orb_false_r. apply orb_comm.
Qed.

Lemma truthy_text_reverse s : truthy_text (reverse s) = truthy_text s.
Proof.
  destruct s as [|c s]; [done|]. rewrite reverse_cons.
  by destruct (reverse s).
Qed.

(** A trimmed text is non-empty exactly when the text has a code unit that
    is not white space. *)
Lemma trim_truthy s : truthy_text (trim s) = non_blank s.
Proof.
  unfold trim, trimEnd.
  by rewrite truthy_text_reverse, trimStart_truthy, non_blank_reverse,
    trimStart_non_blank.
Qed.

(** ** Frame conditions of the stop methods *)

Lemma stop_sources_trace (l : list nat) : ∀ w,
  foldl (λ w source, emit (SourceStop source) w) w l
  = set_trace (trace w ++ (SourceStop <$> l)) w.
Proof.
  induction l as [|x l IH]; intros w; simpl.
  - destruct_world w. unfold set_trace, trace. simpl. by rewrite app_nil_r.
  - rewrite IH. destruct_world w. unfold set_trace, trace, emit. simpl.
    by rewrite <- app_assoc.
Qed.

Lemma stopRecording_frame w :
  isConversing (stopRecording w) = isConversing w
  ∧ isCameraOn (stopRecording w) = isCameraOn w
  ∧ sessionState (stopRecording w) = sessionState w
  ∧ isRecording (stopRecording w) = false
  ∧ transcript (stopRecording w) = transcript w
  ∧ settings (stopRecording w) = settings w
  ∧ playback (stopRecording w) = playback w
  ∧ capture (stopRecording w) = capture w
  ∧ camera (stopRecording w) = camera w
  ∧ sessionPromise (stopRecording w) = sessionPromise w
  ∧ only_emits w (stopRecording w).
Proof.
  unfold stopRecording, only_emits. destruct_world w.
  destruct rc_mediaRecorder0 as [[r []]|], rc_screenStream0,
    rc_recordingMixContext0; fields; emits.
Qed.

Lemma stopConversation_frame w :
  isConversing (stopConversation w) = false
  ∧ isCameraOn (stopConversation w) = isCameraOn w
  ∧ sessionState (stopConversation w) = sessionState w
  ∧ isRecording (stopConversation w) = false
  ∧ transcript (stopConversation w) = transcript w
  ∧ settings (stopConversation w) = settings w
  ∧ playback (stopConversation w) = playback w
  ∧ capture (stopConversation w)
    = {| cp_mediaStream := None; cp_sourceNode := None;
         cp_scriptProcessorNode := None |}
  ∧ camera (stopConversation w) = camera w
  ∧ sessionPromise (stopConversation w) = sessionPromise w
  ∧ only_emits w (stopConversation w).
Proof.
  unfold stopConversation.
  destruct (stopRecording_frame w)
    as (H1 & H2 & H3 & H4 & H5 & H6 & H7 & H8 & H9 & H10 & H11).
  unfold only_emits in *.
  destruct H11 as (? & ? & ? & ? & ? & ? & es & ?).
  destruct (stopRecording w)
    as [[conv ? ? ? ? ?] tr se pb [ms sn spn] cm rc cl sp []].
  destruct conv, spn, sn, ms; destruct_world w; fields; simplify_eq;
    repeat apply conj; try reflexivity;
    eexists; rewrite <- ?app_assoc; reflexivity.
Qed.

Lemma stopCamera_frame w :
  isConversing (stopCamera w) = isConversing w
  ∧ isCameraOn (stopCamera w) = false
  ∧ sessionState (stopCamera w) = sessionState w
  ∧ isRecording (stopCamera w) = isRecording w
  ∧ transcript (stopCamera w) = transcript w
  ∧ settings (stopCamera w) = settings w
  ∧ playback (stopCamera w) = playback w
  ∧ capture (stopCamera w) = capture w
  ∧ recorder (stopCamera w) = recorder w
  ∧ sessionPromise (stopCamera w) = sessionPromise w
  ∧ only_emits w (stopCamera w).
Proof.
  unfold stopCamera, only_emits. destruct_world w.
  destruct ui_isCameraOn0, cm_videoStream0, cm_frameIntervalRef0;
    fields; emits.
Qed.

Lemma stopRecording_spec w :
  ui (stopRecording w)
  = {| ui_isConversing := isConversing w; ui_isCameraOn := isCameraOn w;
       ui_isRecording := false; ui_sessionState := sessionState w;
       ui_status := if recorder_active w
                    then "Recording stopped. Download will start shortly."
                    else status w;
       ui_error := if recorder_active w then EmptyString else error w |}
  ∧ recorder (stopRecording w)
    = {| rc_mediaRecorder := stopped (mediaRecorder w);
         rc_recordedChunks := recordedChunks w;
         rc_screenStream := None; rc_recordingMixContext := None |}
  ∧ trace (stopRecording w) = trace w ++ stopRecording_effects w.
Proof.
  unfold stopRecording, recorder_active, stopRecording_effects, stopped.
  destruct_world w.
  destruct rc_mediaRecorder0 as [[r []]|], rc_screenStream0,
    rc_recordingMixContext0; fields;
    rewrite <- ?app_assoc, ?app_nil_r; done.
Qed.

Lemma stopConversation_spec w :
  ui (stopConversation w)
  = {| ui_isConversing := false; ui_isCameraOn := isCameraOn w;
       ui_isRecording := false; ui_sessionState := sessionState w;
       ui_status := status_after_stop (status w) w;
       ui_error := if isConversing w || recorder_active w
                   then EmptyString else error w |}
  ∧ recorder (stopConversation w)
    = {| rc_mediaRecorder := stopped (mediaRecorder w);
         rc_recordedChunks := recordedChunks w;
         rc_screenStream := None; rc_recordingMixContext := None |}
  ∧ trace (stopConversation w) = trace w ++ stopConversation_effects w.
Proof.
  destruct (stopRecording_spec w) as (Hu & Hr & Ht).
  destruct (stopRecording_frame w)
    as (_ & _ & _ & _ & _ & _ & _ & Hc & _).
  unfold stopConversation, stopConversation_effects, status_after_stop.
  unfold scriptProcessorNode, sourceNode, mediaStream in *.
  rewrite <- Hc. rewrite app_assoc, <- Ht. clear Hc Ht.
  revert Hu Hr. generalize (recorder_active w). intros act.
  unfold isConversing, isCameraOn, sessionState, status, error, mediaRecorder,
    recordedChunks.
  generalize (stopped (rc_mediaRecorder (recorder w))).
  destruct (stopRecording w)
    as [[conv ? ? ? ? ?] tr se pb [ms sn spn] cm rc cl sp []].
  intros mr Hu Hr. simpl in Hu, Hr. subst rc.
  injection Hu as -> -> -> -> -> ->.
  destruct (ui_isConversing (ui w)), spn, sn, ms, act; fields;
    rewrite <- ?app_assoc, ?app_nil_r; done.
Qed.





(** Neither session callback touches the camera. *)
Lemma session_teardown_camera message w :
  camera (onclose w) = camera w ∧ isCameraOn (onclose w) = isCameraOn w
  ∧ camera (onerror message w) = camera w
  ∧ isCameraOn (onerror message w) = isCameraOn w.
Proof.
  unfold onclose, onerror.
  repeat split;
    match goal with |- context [stopConversation ?x] =>
      destruct (stopConversation_frame x) as (_ & Hc & _ & _ & _ & _ & _ & _ & Hm & _)
    end; rewrite ?Hc, ?Hm; reflexivity.
Qed.

(** ** The scheduler *)

Lemma handleMessage_audioMessage d w :
  truthy d = true → handleMessage (audioMessage d) w = playAudio d w.
Proof.
  intros Hd.
  unfold handleMessage, handleMessage_serverContent, handleMessage_rest,
    handleMessage_audio.
  simpl. by rewrite Hd.
Qed.


Lemma handleMessage_audio_transcript m w :
  transcript (handleMessage_audio m w) = transcript w.
Proof.
  unfold handleMessage_audio.
  destruct (modelTurn m) as [[[[|[[d|]] ?]|]]|]; simpl; try done.
  destruct (truthy d); [|done].
  unfold playAudio, request, new_object, await. simpl.
  by destruct (_ !! _).
Qed.

Lemma handleMessage_interrupted_transcript m w :
  transcript (handleMessage_interrupted m w) = transcript w.
Proof.
  unfold handleMessage_interrupted. destruct (interrupted m); [|done].
  rewrite stop_sources_trace. done.
Qed.

(** The turn-completion block as [handleMessage_rest] runs it, after the
    transcription blocks of the same message. *)
Lemma handleMessage_rest_turnComplete message w :
  turnComplete message = true →
  transcriptionHistory (handleMessage_rest message w)
  = transcriptionHistory w
    ++ (if non_blank (userText message w)
        then [{| speaker := You; text := userText message w |}] else [])
    ++ (if non_blank (modelText message w)
        then [{| speaker := Gemini; text := modelText message w |}] else [])
  ∧ _currentInput (handleMessage_rest message w) = []
  ∧ _currentOutput (handleMessage_rest message w) = []
  ∧ currentUserTranscription (handleMessage_rest message w) = []
  ∧ currentModelTranscription (handleMessage_rest message w) = [].
Proof.
  intros Htc. rewrite <- !trim_truthy. unfold handleMessage_rest.
  unfold transcriptionHistory, _currentInput, _currentOutput,
    currentUserTranscription, currentModelTranscription, userText, modelText.
  rewrite handleMessage_interrupted_transcript.
  unfold handleMessage_turnComplete. rewrite Htc.
  unfold handleMessage_outputTranscription, handleMessage_inputTranscription.
  pose proof (handleMessage_audio_transcript message w) as Ha.
  destruct (handleMessage_audio message w) as [? tr' ? ? ? ? ? ? ? ?].
  simpl in Ha. subst tr'.
  unfold _currentInput, _currentOutput, transcriptionHistory.
  destruct (inputTranscription message), (outputTranscription message); simpl;
    repeat match goal with
           | |- context [truthy_text ?x] => destruct (truthy_text x)
           end;
    simpl; rewrite <- ?app_assoc, ?app_nil_r; done.
Qed.

Lemma onaudioprocess_inactive block w :
  isConversing w = false → onaudioprocess block w = w.
Proof. intros H. unfold onaudioprocess. by rewrite H. Qed.

Lemma stopConversation_sessionState w :
  sessionState (stopConversation w) = sessionState w.
Proof. by destruct (stopConversation_frame w) as (_ & _ & H & _). Qed.


(** * Reachable states are well formed *)

Lemma cont_ok_mono n n' k : cont_ok n k → (n ≤ n')%nat → cont_ok n' k.
Proof. destruct k; simpl; try done. lia. Qed.

Lemma bound_mono {A} (m : gmap nat A) n n' :
  map_Forall (λ p _, (p < n)%nat) m → (n ≤ n')%nat →
  map_Forall (λ p _, (p < n')%nat) m.
Proof. intros H ?. eapply map_Forall_impl; [exact H|]. simpl. intros. lia. Qed.

Lemma waiters_mono (l : list (nat * Cont)) n n' :
  Forall (λ pk, (pk.1 < n)%nat ∧ cont_ok n pk.2) l → (n ≤ n')%nat →
  Forall (λ pk, (pk.1 < n')%nat ∧ cont_ok n' pk.2) l.
Proof.
  intros H ?. eapply Forall_impl; [exact H|]. simpl. intros ? [? ?].
  split; [lia|by eapply cont_ok_mono].
Qed.

Lemma jobs_mono (l : list (Cont * Settlement)) n n' :
  Forall (λ kr, cont_ok n kr.1) l → (n ≤ n')%nat →
  Forall (λ kr, cont_ok n' kr.1) l.
Proof.
  intros H ?. eapply Forall_impl; [exact H|]. simpl. intros.
  by eapply cont_ok_mono.
Qed.

(** The invariant reads the run-time part and the session promise only. *)
Lemma invariant_frame w w' :
  rt_next (runtime w') = rt_next (runtime w) →
  requests w' = requests w → promises w' = promises w →
  waiters w' = waiters w → microtasks w' = microtasks w →
  sessionPromise w' = sessionPromise w →
  invariant w → invariant w'.
Proof. unfold invariant. by intros -> -> -> -> -> ->. Qed.

Lemma invariant_new_object w : invariant w → invariant (new_object w).2.
Proof.
  intros (H1 & H2 & H3 & H4 & H5). unfold invariant, new_object. cbn [fst snd]. fields.
  repeat split.
  - eapply bound_mono; [done|lia].
  - eapply bound_mono; [done|lia].
  - eapply waiters_mono; [done|lia].
  - eapply jobs_mono; [done|lia].
  - lia.
Qed.

Lemma invariant_request r w : invariant w → invariant (request r w).2.
Proof.
  intros (H1 & H2 & H3 & H4 & H5). unfold invariant, request, new_object. cbn [fst snd]. fields.
  repeat split.
  - apply map_Forall_insert_2; [lia|]. eapply bound_mono; [done|lia].
  - eapply bound_mono; [done|lia].
  - eapply waiters_mono; [done|lia].
  - eapply jobs_mono; [done|lia].
  - lia.
Qed.

Lemma invariant_await p k w :
  (p < rt_next (runtime w))%nat → cont_ok (rt_next (runtime w)) k →
  invariant w → invariant (await p k w).
Proof.
  intros Hp Hk (H1 & H2 & H3 & H4 & H5). unfold invariant, await.
  destruct (promises w !! p); fields; repeat split; try done.
  - apply Forall_app. split; [done|]. by repeat constructor.
  - apply Forall_app. split; [done|]. by repeat constructor.
Qed.

Lemma invariant_settle p r w :
  (p < rt_next (runtime w))%nat → invariant w → invariant (settle p r w).
Proof.
  intros Hp (H1 & H2 & H3 & H4 & H5). unfold invariant, settle. fields.
  repeat split; try done.
  - by apply map_Forall_insert_2.
  - apply Forall_forall. intros x [_ Hx]%list_elem_of_filter.
    by apply (proj1 (Forall_forall _ _) H3).
  - apply Forall_app. split; [done|]. apply Forall_forall.
    intros x (y & -> & [_ Hy]%list_elem_of_filter)%list_elem_of_fmap.
    simpl. by apply (proj1 (Forall_forall _ _) H3 y).
Qed.

Lemma invariant_same_jobs w w' : same_jobs w w' → invariant w → invariant w'.
Proof. intros (? & ? & ? & ? & ? & ?). by apply invariant_frame. Qed.

Lemma only_emits_same_jobs w w' :
  only_emits w w' → sessionPromise w' = sessionPromise w → same_jobs w w'.
Proof. intros (_ & ? & ? & ? & ? & ? & _) ?. done. Qed.

Lemma stopRecording_same w : same_jobs w (stopRecording w).
Proof.
  destruct (stopRecording_frame w) as (_&_&_&_&_&_&_&_&_& ? & ?).
  by apply only_emits_same_jobs.
Qed.

Lemma stopConversation_same w : same_jobs w (stopConversation w).
Proof.
  destruct (stopConversation_frame w) as (_&_&_&_&_&_&_&_&_& ? & ?).
  by apply only_emits_same_jobs.
Qed.

Lemma stopCamera_same w : same_jobs w (stopCamera w).
Proof.
  destruct (stopCamera_frame w) as (_&_&_&_&_&_&_&_&_& ? & ?).
  by apply only_emits_same_jobs.
Qed.

Lemma request_await r k w :
  invariant w → cont_ok (S (rt_next (runtime w))) k →
  invariant (let '(p, w') := request r w in await p k w').
Proof.
  intros Hi Hk.
  change (invariant (await (rt_next (runtime w)) k (request r w).2)).
  apply invariant_await; [simpl; lia|exact Hk|by apply invariant_request].
Qed.

Lemma await_session k w :
  invariant w → cont_ok (rt_next (runtime w)) k →
  invariant (await (sessionPromise w) k w).
Proof. intros Hi Hk. apply invariant_await; [apply Hi|done..]. Qed.

Lemma invariant_initSession v s w :
  invariant w →
  invariant (initSession v s w).2
  ∧ ((initSession v s w).1 < rt_next (runtime (initSession v s w).2))%nat.
Proof.
  intros Hi.
  set (w1 := updateStatus "Connecting to Gemini..." (set_sessionState Connecting w)).
  assert (H1 : invariant w1) by (apply (invariant_same_jobs w); [same|done]).
  unfold initSession. cbv zeta. fold w1. destruct (client w1).
  - apply (invariant_request (Connect v s)) in H1.
    apply invariant_new_object in H1.
    change (invariant
              (await (rt_next (runtime w))
                 (initSession_k (S (rt_next (runtime w))))
                 (new_object (request (Connect v s) w1).2).2)
            ∧ (S (rt_next (runtime w))
               < rt_next (runtime
                   (await (rt_next (runtime w))
                      (initSession_k (S (rt_next (runtime w))))
                      (new_object (request (Connect v s) w1).2).2)))%nat).
    split.
    + apply invariant_await; [simpl; lia|simpl; lia|done].
    + unfold await. destruct (_ !! _); unfold w1, request, new_object;
        cbn [fst snd]; fields; lia.
  - apply invariant_new_object in H1.
    change (invariant
              (initSession_resume (rt_next (runtime w))
                 (Rejected client_TypeError) (new_object w1).2)
            ∧ (rt_next (runtime w)
               < rt_next (runtime
                   (initSession_resume (rt_next (runtime w))
                      (Rejected client_TypeError) (new_object w1).2)))%nat).
    split.
    + unfold initSession_resume. apply invariant_settle; [simpl; lia|].
      apply (invariant_same_jobs (new_object w1).2); [same|done].
    + unfold initSession_resume, settle, w1, new_object. cbn [fst snd].
      fields. lia.
Qed.

Lemma invariant_initClient API_KEY w :
  invariant w → invariant (initClient API_KEY w).
Proof.
  intros Hi. unfold initClient.
  set (w0 := set_nextStartTime (currentTime w) w).
  assert (H0 : invariant w0) by (apply (invariant_same_jobs w); [same|done]).
  destruct API_KEY as [key|]; [|done].
  set (w1 := set_client true w0).
  assert (H1 : invariant w1) by (apply (invariant_same_jobs w0); [same|done]).
  destruct (invariant_initSession (currentVoice w1) (currentSystemInstruction w1) w1 H1)
    as (H2 & H3).
  destruct (initSession _ _ w1) as [q w2]. simpl in *.
  destruct H2 as (? & ? & ? & ? & ?). by repeat split.
Qed.

Lemma invariant_constructor API_KEY t0 : invariant (constructor API_KEY t0).
Proof.
  apply invariant_initClient. unfold invariant, field_initialisers. simpl.
  split; [apply map_Forall_empty|].
  split; [apply map_Forall_singleton; lia|].
  split; [constructor|]. split; [constructor|]. lia.
Qed.

(** The blocks of [handleMessage] after the audio leave the jobs alone. *)
Lemma handleMessage_tail_same m w :
  same_jobs w
    (handleMessage_interrupted m
       (handleMessage_turnComplete m
          (handleMessage_outputTranscription m
             (handleMessage_inputTranscription m w)))).
Proof.
  unfold handleMessage_interrupted, handleMessage_turnComplete,
    handleMessage_outputTranscription, handleMessage_inputTranscription.
  rewrite stop_sources_trace.
  destruct (interrupted m), (turnComplete m), (outputTranscription m),
    (inputTranscription m); same.
Qed.

Lemma invariant_playAudio d w : invariant w → invariant (playAudio d w).
Proof.
  intros Hi. unfold playAudio. apply request_await; [|done].
  apply (invariant_same_jobs w); [same|done].
Qed.

Lemma invariant_playAudio_resume r w :
  invariant w → invariant (playAudio_resume r w).
Proof.
  intros Hi. unfold playAudio_resume. destruct r as [[]|]; try done.
  apply (invariant_same_jobs (new_object w).2); [same|].
  by apply invariant_new_object.
Qed.

Lemma invariant_handleMessage_rest m w :
  invariant w → invariant (handleMessage_rest m w).
Proof.
  intros Hi. unfold handleMessage_rest.
  eapply invariant_same_jobs; [apply handleMessage_tail_same|].
  unfold handleMessage_audio.
  destruct (modelTurn m) as [[[[|[[d|]] ?]|]]|]; simpl; try done.
  destruct (truthy d); [|done]. by apply invariant_playAudio.
Qed.

Lemma invariant_handleMessage_serverContent m w :
  invariant w → invariant (handleMessage_serverContent m w).
Proof.
  intros Hi. unfold handleMessage_serverContent.
  destruct (parts_missing m); [done|]. by apply invariant_handleMessage_rest.
Qed.

Lemma invariant_handleMessage_calls fcs m : ∀ w,
  invariant w → invariant (handleMessage_calls fcs m w).
Proof.
  induction fcs as [|fc fcs IH]; intros w Hi; simpl.
  - by apply invariant_handleMessage_serverContent.
  - destruct (String.eqb _ _); [|by apply IH].
    apply (await_session _ (emit _ w)); [|done].
    apply (invariant_same_jobs w); [same|done].
Qed.

Lemma invariant_handleMessage m w : invariant w → invariant (handleMessage m w).
Proof.
  intros Hi. unfold handleMessage. destruct (toolCall m).
  - by apply invariant_handleMessage_calls.
  - by apply invariant_handleMessage_serverContent.
Qed.

Lemma invariant_handleMessage_resume fc rest m r w :
  invariant w → invariant (handleMessage_resume fc rest m r w).
Proof.
  intros Hi. unfold handleMessage_resume. destruct r as [[]|]; try done.
  apply invariant_handleMessage_calls.
  apply (invariant_same_jobs w); [same|done].
Qed.

Lemma invariant_stopRecording w : invariant w → invariant (stopRecording w).
Proof. apply invariant_same_jobs, stopRecording_same. Qed.

Lemma invariant_stopConversation w : invariant w → invariant (stopConversation w).
Proof. apply invariant_same_jobs, stopConversation_same. Qed.

Lemma invariant_stopCamera w : invariant w → invariant (stopCamera w).
Proof. apply invariant_same_jobs, stopCamera_same. Qed.

Lemma invariant_startConversation w :
  invariant w → invariant (startConversation w).
Proof.
  intros Hi. unfold startConversation. destruct (_ || _); [done|].
  by apply request_await.
Qed.

Lemma invariant_startConversation_resume1 r w :
  invariant w → invariant (startConversation_resume1 r w).
Proof.
  intros Hi. unfold startConversation_resume1. destruct r; [|done].
  apply request_await; [|done]. apply (invariant_same_jobs w); [same|done].
Qed.

Lemma invariant_startConversation_resume2 r w :
  invariant w → invariant (startConversation_resume2 r w).
Proof.
  intros Hi. unfold startConversation_resume2. destruct r as [[]|]; try done.
  - set (w1 := updateStatus _ (set_mediaStream _ w)).
    assert (H1 : invariant w1) by (apply (invariant_same_jobs w); [same|done]).
    apply invariant_new_object in H1.
    set (w2 := set_sourceNode (Some (new_object w1).1) (new_object w1).2).
    assert (H2 : invariant w2)
      by (apply (invariant_same_jobs (new_object w1).2); [same|done]).
    apply invariant_new_object in H2.
    apply (invariant_same_jobs (new_object w2).2); [same|done].
  - apply invariant_stopConversation.
    apply (invariant_same_jobs w); [same|done].
Qed.

Lemma invariant_onaudioprocess block w :
  invariant w → invariant (onaudioprocess block w).
Proof.
  intros Hi. unfold onaudioprocess. destruct (negb _); [done|].
  by apply await_session.
Qed.

Lemma invariant_startCamera w : invariant w → invariant (startCamera w).
Proof.
  intros Hi. unfold startCamera. destruct (isCameraOn w); [done|].
  by apply request_await.
Qed.

Lemma invariant_startCamera_resume1 r w :
  invariant w → invariant (startCamera_resume1 r w).
Proof.
  intros Hi. unfold startCamera_resume1, startCamera_catch.
  destruct r as [[]|]; try done.
  apply request_await; [|done]. apply (invariant_same_jobs w); [same|done].
Qed.

Lemma invariant_startCamera_resume2 r w :
  invariant w → invariant (startCamera_resume2 r w).
Proof.
  intros Hi. unfold startCamera_resume2, startCamera_catch. destruct r.
  - set (w1 := set_isCameraOn true w).
    assert (H1 : invariant w1) by (apply (invariant_same_jobs w); [same|done]).
    apply invariant_new_object in H1.
    apply (invariant_same_jobs (new_object w1).2); [same|done].
  - apply (invariant_same_jobs w); [same|done].
Qed.

Lemma invariant_onframe w : invariant w → invariant (onframe w).
Proof.
  intros Hi. unfold onframe. destruct (negb _); [done|].
  by apply request_await.
Qed.

Lemma invariant_onframe_resume r w : invariant w → invariant (onframe_resume r w).
Proof.
  intros Hi. unfold onframe_resume. destruct r as [[]|]; try done.
  by apply await_session.
Qed.

Lemma invariant_applySettingsAndResetSession confirmed w :
  invariant w → invariant (applySettingsAndResetSession confirmed w).
Proof.
  intros Hi. unfold applySettingsAndResetSession. destruct (_ && _); [done|].
  apply await_session; [|done].
  by apply invariant_stopCamera, invariant_stopConversation.
Qed.

Lemma invariant_applySettingsAndResetSession_resume r w :
  invariant w → invariant (applySettingsAndResetSession_resume r w).
Proof.
  intros Hi. unfold applySettingsAndResetSession_resume. destruct r; [|done].
  set (w1 := updateStatus _ _).
  assert (H1 : invariant w1).
  { apply (invariant_same_jobs w); [|done]. unfold w1. destruct v; same. }
  destruct (invariant_initSession (currentVoice w1) (currentSystemInstruction w1)
              w1 H1) as (H2 & H3).
  destruct (initSession _ _ w1) as [q w2]. simpl in *.
  destruct H2 as (? & ? & ? & ? & ?). by repeat split.
Qed.

Lemma invariant_startRecording w : invariant w → invariant (startRecording w).
Proof.
  intros Hi. unfold startRecording. destruct (negb _).
  - apply (invariant_same_jobs w); [same|done].
  - apply request_await; [|done]. apply (invariant_same_jobs w); [same|done].
Qed.

Lemma invariant_startRecording_resume r w :
  invariant w → invariant (startRecording_resume r w).
Proof.
  intros Hi. unfold startRecording_resume.
  destruct r as [[]|]; try done.
  set (w1 := set_recordedChunks [] (set_screenStream (Some m) w)).
  assert (H1 : invariant w1) by done.
  apply invariant_new_object in H1.
  set (w2 := set_recordingMixContext (Some (new_object w1).1) (new_object w1).2).
  assert (H2 : invariant w2) by done.
  assert (Hgen : ∀ w',
    invariant w' →
    invariant
      match mediaStream w' with
      | Some _ =>
          let '(rec, w) := new_object w' in
          let w := emit (RecorderStart rec) w in
          let w := set_mediaRecorder (Some (rec, Recording)) w in
          let w := set_isRecording true w in
          updateStatus "Recording session..." w
      | None => startRecording_catch createMediaStreamSource_TypeError w'
      end).
  { intros w' H'. destruct (mediaStream w'); [|done].
    by apply invariant_new_object in H'. }
  exact (Hgen w2 H2).
Qed.

Lemma invariant_run_cont k r w :
  invariant w → cont_ok (rt_next (runtime w)) k → invariant (run_cont k r w).
Proof.
  intros Hi Hk. destruct k; simpl.
  - unfold initSession_resume. destruct r; by apply invariant_settle.
  - by apply invariant_handleMessage_resume.
  - by apply invariant_playAudio_resume.
  - by apply invariant_startConversation_resume1.
  - by apply invariant_startConversation_resume2.
  - unfold onaudioprocess_then_run. by destruct r as [[]|].
  - by apply invariant_startCamera_resume1.
  - by apply invariant_startCamera_resume2.
  - by apply invariant_onframe_resume.
  - unfold frame_then_run. by destruct r as [[]|].
  - by apply invariant_applySettingsAndResetSession_resume.
  - by apply invariant_startRecording_resume.
Qed.

Lemma invariant_task e w w' :
  invariant w → task e w = Some w' → invariant w'.
Proof.
  intros Hi. destruct e; simpl; intros H; repeat case_match; simplify_eq.
  - apply (invariant_same_jobs w); [same|done].
  - apply invariant_settle; [|done].
    destruct Hi as (Hq & _).
    by apply (map_Forall_lookup_1 _ _ _ _ Hq) in H0.
  - unfold onopen. apply (invariant_same_jobs w); [same|done].
  - by apply invariant_handleMessage.
  - unfold onerror. apply invariant_stopConversation.
    apply (invariant_same_jobs w); [same|done].
  - unfold onclose. apply invariant_stopConversation.
    apply (invariant_same_jobs w); [same|done].
  - by apply invariant_onaudioprocess.
  - unfold onended. apply (invariant_same_jobs w); [same|done].
  - by apply invariant_onframe.
  - by apply invariant_stopRecording.
  - unfold ondataavailable. destruct (_ <? _); [|done].
    apply (invariant_same_jobs w); [same|done].
  - unfold onstop. apply (invariant_same_jobs w); [same|done].
  - apply (invariant_same_jobs w); [same|done].
  - apply (invariant_same_jobs w); [same|done].
  - by apply invariant_applySettingsAndResetSession.
  - unfold toggleConversation. destruct (isConversing w).
    + by apply invariant_stopConversation.
    + by apply invariant_startConversation.
  - unfold toggleCamera. destruct (isCameraOn w).
    + by apply invariant_stopCamera.
    + by apply invariant_startCamera.
  - unfold toggleRecording. destruct (isRecording w).
    + by apply invariant_stopRecording.
    + by apply invariant_startRecording.
Qed.

Lemma invariant_step e w w' :
  invariant w → step e w = Some w' → invariant w'.
Proof.
  intros Hi. unfold step.
  destruct (microtasks w) as [|[k r] rest] eqn:Hm.
  - destruct e; try done; by apply invariant_task.
  - destruct e; try done. intros [= <-].
    destruct Hi as (H1 & H2 & H3 & H4 & H5).
    rewrite Hm in H4. apply Forall_cons in H4 as [Hk H4].
    apply invariant_run_cont; [|done].
    exact (conj H1 (conj H2 (conj H3 (conj H4 H5)))).
Qed.

Lemma invariant_run es : ∀ w w',
  invariant w → run es w = Some w' → invariant w'.
Proof.
  induction es as [|e es IH]; intros w w' Hi; simpl.
  - by intros [= <-].
  - destruct (step e w) as [w1|] eqn:He; [|done]. simpl.
    apply IH. by eapply invariant_step.
Qed.

(** Every reachable state is well formed. *)
Lemma reachable_well_formed w : reachable w → well_formed w.
Proof.
  intros (key & t0 & es & Hr).
  destruct (invariant_run es _ _ (invariant_constructor key t0) Hr)
    as (H1 & H2 & H3 & _).
  repeat split; try done.
  eapply Forall_impl; [exact H3|]. by intros ? [? _].
Qed.

(** * Properties of the frequency analyser *)

Section AnalyserProperties.

Implicit Types (h : gmap nat (list Byte.byte)) (freq : list Byte.byte).

Lemma getByteFrequencyData_length freq l h arr :
  h !! l = Some arr →
  ∃ arr', Analyser.getByteFrequencyData freq l h !! l = Some arr'
          ∧ length arr' = length arr.
Proof.
  intros Hl. unfold Analyser.getByteFrequencyData. rewrite Hl.
  eexists. split; [apply lookup_insert_eq|].
  rewrite length_app, length_take, length_drop. lia.
Qed.

Lemma updates_preserve freqs : ∀ a h arr,
  h !! Analyser.dataArray a = Some arr →
  (Analyser.updates freqs (a, h)).1 = a
  ∧ ∃ arr', (Analyser.updates freqs (a, h)).2 !! Analyser.dataArray a = Some arr'
            ∧ length arr' = length arr.
Proof.
  induction freqs as [|freq freqs IH]; intros a h arr Hl; simpl.
  - split; [done|]. by exists arr.
  - destruct (getByteFrequencyData_length freq _ _ _ Hl) as (arr1 & H1 & Hlen1).
    unfold Analyser.updates in *. simpl. unfold Analyser.update at 2. simpl.
    destruct (IH a _ _ H1) as (Ha & arr2 & H2 & Hlen2).
    split; [done|]. exists arr2. split; [done|]. congruence.
Qed.

(** C10.  Constructing an analyser always succeeds and allocates a new array
    of 128 bins, half of the transform size 256.  After any run of update
    cycles the [data] accessor still returns the address of that same array,
    and the array still has 128 elements. *)
Theorem analyser_snapshot_fixed (node : nat) h :
  ∃ a h0,
    Analyser.constructor node h = Some (a, h0)
    ∧ Analyser.fftSize (Analyser.analyser a) = 256
    ∧ Analyser.bufferLength a = 128%nat
    ∧ h !! Analyser.data a = None
    ∧ ∀ freqs,
        Analyser.data (Analyser.updates freqs (a, h0)).1 = Analyser.data a
        ∧ ∃ arr, (Analyser.updates freqs (a, h0)).2 !! Analyser.data a = Some arr
                 ∧ length arr = 128%nat.
Proof.
  eexists _, _. split; [reflexivity|]. simpl.
  split; [done|]. split; [done|].
  split. { apply not_elem_of_dom, is_fresh. }
  intros freqs.
  edestruct (updates_preserve freqs) as (Ha & arr & Harr & Hlen);
    [|rewrite Ha; split; [done|]; exists arr; split; [exact Harr|rewrite Hlen]].
  - simpl. apply lookup_insert_eq.
  - reflexivity.
Qed.

End AnalyserProperties.

(** * Properties of the playback scheduler *)








(** The condition that a chunk is decoded before the message of the next is
    handled cannot be dropped.  A source is started when its decoding
    completes, at the cursor it finds then: here B, the second chunk to
    arrive, is decoded last and starts at 510, after C, which arrived at 500
    and starts there. *)
Lemma overlapping_decodings_start_on_completion :
  ∃ w',
    run overlapping_decodings (constructor configured 0) = Some w'
    ∧ trace w'
      = [Call 1 (Connect "Zephyr" "You are a helpful and creative AI assistant.");
         Call 3 (DecodeAudioData "AAAA"); Call 4 (DecodeAudioData "BBBB");
         SourceStart 5 100; Call 6 (DecodeAudioData "CCCC");
         SourceStart 7 500; SourceStart 8 510]
    ∧ starts w' = [100; 500; 510].
Proof. eexists. split; [vm_compute; reflexivity|]. by vm_compute. Qed.



(** In any state between two tasks, a message with audio and the
    interruption signal leaves the decoded chunk started at cursor value 0
    and alone in the in-flight set, after the sources that were in flight
    have been stopped. *)
Lemma suspended_chunk_starts_at_zero c d b w :
  well_formed w → microtasks w = [] → is_connection c w = true →
  truthy d = true → 0 ≤ duration b →
  ∃ w',
    run [EvMessage c (interruptedAudio d);
         EvSettle (rt_next (runtime w)) (Fulfilled (VAudioBuffer b));
         EvMicrotask] w = Some w'
    ∧ trace w' = trace w
        ++ [Call (rt_next (runtime w)) (DecodeAudioData d)]
        ++ (SourceStop <$> sources w)
        ++ [SourceStart (S (rt_next (runtime w))) 0]
    ∧ sources w' = [S (rt_next (runtime w))]
    ∧ nextStartTime w' = duration b.
Proof.
  intros (Hq & Hp & Hw) Hm Hc Hd Hb.
  cbn [run]. rewrite step_message by done. cbn [mbind option_bind].
  destruct (filter_waiters_fresh _ _ Hw) as [Hf1 Hf2].
  pose proof (map_Forall_fresh _ _ Hp) as Hpn.
  unfold handleMessage, handleMessage_serverContent, parts_missing,
    handleMessage_rest, handleMessage_audio,
    handleMessage_inputTranscription, handleMessage_outputTranscription,
    handleMessage_turnComplete, handleMessage_interrupted.
  cbn [toolCall modelTurn parts inputTranscription outputTranscription
       turnComplete interrupted interruptedAudio inlineData].
  rewrite Hd, stop_sources_trace.
  unfold playAudio. destruct_world w. fields. rewrite Hpn. fields.
  subst rt_microtasks0.
  rewrite (step_settle rt_next0 (DecodeAudioData d)).
  2:{ by fields. }
  2:{ fields. apply lookup_insert_eq. }
  2:{ by fields. }
  2:{ by apply Z.leb_le. }
  unfold settle. fields.
  rewrite !filter_app, Hf1, Hf2. rewrite !filter_cons. cbn [fst snd].
  rewrite (decide_True (P := rt_next0 = rt_next0)) by done.
  rewrite (decide_False (P := rt_next0 ≠ rt_next0)) by (intros H; by apply H).
  rewrite !filter_nil, app_nil_r. cbn [app fmap list_fmap fst snd].
  cbn [mbind option_bind].
  erewrite step_microtask by (fields; reflexivity).
  cbn [mbind option_bind].
  eexists. split; [reflexivity|].
  unfold run_cont, playAudio_resume, set_add. fields.
  rewrite decide_False by apply not_elem_of_nil.
  repeat split. by rewrite <- !app_assoc.
Qed.

(** C3 fails on the code.  A message that carries audio and the
    interruption signal suspends [playAudio] on the decoding, then stops and
    clears the sources in flight and resets the cursor; when the decoding
    completes the suspended call starts its source at cursor value 0, which
    lies before the clock (200), and adds it to the in-flight set. *)
Theorem interrupt_misses_suspended_chunk :
  ∃ w',
    run interrupted_while_decoding (constructor configured 0) = Some w'
    ∧ trace w'
      = [Call 1 (Connect "Zephyr" "You are a helpful and creative AI assistant.");
         Call 3 (DecodeAudioData "AAAA"); SourceStart 4 100;
         Call 5 (DecodeAudioData "BBBB"); SourceStop 4; SourceStart 6 0]
    ∧ sources w' = [6%nat]
    ∧ nextStartTime w' = 10
    ∧ currentTime w' = 200.
Proof. eexists. split; [vm_compute; reflexivity|]. by vm_compute. Qed.

(** * Properties of the session life cycle *)

(** C4 fails on the code.  With the camera on, the close event of the
    session stops the conversation and the recording but leaves the frame
    pipeline as it was: the camera flag, the video stream and the interval
    timer stay, and the next timer tick still captures a frame. *)
Theorem session_close_leaves_camera_running :
  ∃ w' w'',
    run (camera_on ++ [EvClose 1]) (constructor configured 0) = Some w'
    ∧ sessionState w' = Idle
    ∧ isCameraOn w' = true
    ∧ videoStream w' = Some 7%nat
    ∧ frameIntervalRef w' = Some 5%nat
    ∧ step EvFrameTimer w' = Some w''
    ∧ trace w'' = trace w' ++ [Call 6 EncodeFrame].
Proof.
  eexists _, _. split; [vm_compute; reflexivity|].
  repeat split; vm_compute; reflexivity.
Qed.

(** Once [stopConversation] has run, a block handed to the processor
    callback is dropped, whatever the state. *)
Lemma block_after_stop_dropped block w :
  onaudioprocess block (stopConversation w) = stopConversation w.
Proof.
  apply onaudioprocess_inactive.
  by destruct (stopConversation_frame w) as (H & _).
Qed.

(** A block that arrives while the session promise is pending is
    registered on that promise, and [stopConversation] leaves it there: when
    the promise is fulfilled the callback is queued, and running it submits
    the block. *)
Lemma pending_block_survives_stop w block session :
  isConversing w = true →
  promises w !! sessionPromise w = None →
  (sessionPromise w, onaudioprocess_then block)
    ∈ waiters (stopConversation (onaudioprocess block w))
  ∧ (onaudioprocess_then block, Fulfilled (VSession session))
      ∈ microtasks (settle (sessionPromise w) (Fulfilled (VSession session))
                      (stopConversation (onaudioprocess block w)))
  ∧ ∀ w', trace (run_cont (onaudioprocess_then block)
                   (Fulfilled (VSession session)) w')
          = trace w' ++ [SendRealtimeInput session (Pcm block)].
Proof.
  intros Hc Hp.
  destruct (stopConversation_frame (onaudioprocess block w))
    as (H1 & _ & _ & _ & _ & _ & _ & _ & _ & _ & _ & _ & _ & _ & Hw & _).
  assert (Hin : (sessionPromise w, onaudioprocess_then block)
                ∈ waiters (stopConversation (onaudioprocess block w))).
  { rewrite Hw. unfold onaudioprocess, await. rewrite Hc, Hp.
    destruct_world w. fields. apply elem_of_app. right. by left. }
  split; [done|]. split; [by apply settle_queues|].
  reflexivity.
Qed.

(** C5 fails on the code.  The processor callback looks at [isConversing]
    when a block arrives, before it waits for the session; when the session
    promise is fulfilled the callback given to [then] sends the block
    without looking again.  In the run below the microphone is granted while
    the new session promise (6) is pending, block 0 is captured, and the
    close event of the old session stops the conversation.  Block 1, handed
    to the callback after the stop, is dropped; block 0, whose submission
    was waiting at the time of the stop, is sent to the new session (5) once
    it is established, although no conversation is on. *)
Theorem pending_block_sent_after_stop :
  ∃ w1 w2,
    run block_pending_at_stop (constructor configured 0) = Some w1
    ∧ isConversing w1 = false
    ∧ scriptProcessorNode w1 = None
    ∧ Forall (λ e, ∀ s m, e ≠ SendRealtimeInput s m) (trace w1)
    ∧ step (EvAudioProcess 1) w1 = Some w1
    ∧ run new_session_resolves w1 = Some w2
    ∧ isConversing w2 = false
    ∧ trace w2 = trace w1 ++ [SendRealtimeInput 5 (Pcm 0)].
Proof.
  eexists _, _. split; [vm_compute; reflexivity|].
  split; [vm_compute; reflexivity|]. split; [vm_compute; reflexivity|].
  split. { vm_compute. repeat constructor; discriminate. }
  split; [vm_compute; reflexivity|].
  split; [vm_compute; reflexivity|].
  split; vm_compute; reflexivity.
Qed.








(** * Properties of the recording mixer and of stopping *)

(** C8.  Without an active conversation [startRecording] only reports the
    precondition error: the error text is set, no screen capture is
    requested and nothing is queued (the run-time part is unchanged), and
    the recording flag and the recording state stay as they were. *)
Theorem startRecording_requires_conversation (w : World) :
  isConversing w = false →
  startRecording w = updateError "Start a conversation before recording." w
  ∧ error (startRecording w) = "Start a conversation before recording."
  ∧ status (startRecording w) = ""
  ∧ isRecording (startRecording w) = isRecording w
  ∧ recorder (startRecording w) = recorder w
  ∧ runtime (startRecording w) = runtime w.
Proof. intros H. unfold startRecording. rewrite H. simpl. done. Qed.

Lemma startRecording_requires_conversation_witness :
  isConversing (connected_world 0) = false
  ∧ recorder (startRecording (connected_world 0)) = recorder (connected_world 0)
  ∧ trace (startRecording (connected_world 0)) = trace (connected_world 0).
Proof.
  split; [vm_compute; reflexivity|].
  destruct (startRecording_requires_conversation (connected_world 0))
    as (_ & _ & _ & _ & Hr & Hrt).
  - vm_compute; reflexivity.
  - split; [exact Hr|]. unfold trace. by rewrite Hrt.
Defined.

(** C9.  When no conversation and no recording has been started,
    [stopConversation] changes nothing at all; and in every state it leaves
    the session state as it was. *)
Theorem stopConversation_never_started (w : World) :
  never_started w →
  stopConversation w = w
  ∧ sessionState (stopConversation w) = sessionState w
  ∧ ∀ w0, sessionState (stopConversation w0) = sessionState w0.
Proof.
  intros (H1 & H2 & H3 & H4 & H5 & H6 & H7 & H8).
  split; [|split; [|intros]; apply stopConversation_sessionState].
  destruct w as [[] ? ? ? [] ? [] ? ? ?].
  unfold isConversing, mediaStream, sourceNode, scriptProcessorNode,
    isRecording, mediaRecorder, screenStream, recordingMixContext in *.
  simpl in *. subst. reflexivity.
Qed.

Lemma stopConversation_never_started_witness :
  never_started (connected_world 0)
  ∧ stopConversation (connected_world 0) = connected_world 0.
Proof.
  assert (H : never_started (connected_world 0))
    by (repeat split; vm_compute; reflexivity).
  split; [exact H|].
  exact (proj1 (stopConversation_never_started (connected_world 0) H)).
Defined.
(** * Further properties of the component *)

(** ** Strings *)

Lemma string_app_nil_r (s : string) : s +:+ EmptyString = s.
Proof.
  induction s as [|a s IH]; [done|].
  change (String a (s +:+ EmptyString) = String a s). by rewrite IH.
Qed.

(** ** Tool calls *)

Lemma handleMessage_calls_unknown fcs m w :
  Forall (λ fc, known_call fc = false) fcs →
  handleMessage_calls fcs m w = handleMessage_serverContent m w.
Proof.
  induction 1 as [|fc fcs Hfc _ IH]; [done|]. simpl.
  unfold known_call in Hfc. by rewrite Hfc.
Qed.

Lemma set_trace_id w : set_trace (trace w ++ []) w = w.
Proof. destruct_world w. fields. by rewrite app_nil_r. Qed.

Lemma known_calls_cons fc fcs :
  known_calls (fc :: fcs)
  = if known_call fc then S (known_calls fcs) else known_calls fcs.
Proof.
  unfold known_calls. rewrite filter_cons.
  destruct (known_call fc); [by rewrite decide_True|by rewrite decide_False].
Qed.

Lemma handleMessage_calls_fulfilled m session fcs : ∀ w,
  microtasks w = [] →
  promises w !! sessionPromise w = Some (Fulfilled (VSession session)) →
  run (replicate (known_calls fcs) EvMicrotask) (handleMessage_calls fcs m w)
  = Some (handleMessage_serverContent m
            (set_trace (trace w ++ tool_effects session fcs) w)).
Proof.
  induction fcs as [|fc fcs IH]; intros w Hm Hp.
  - simpl. by rewrite set_trace_id.
  - rewrite known_calls_cons. cbn [handleMessage_calls tool_effects flat_map].
    fold (tool_effects session fcs). fold (known_call fc).
    destruct (known_call fc) eqn:E.
    + cbn [length replicate run].
      rewrite (await_settled _ (Fulfilled (VSession session))).
      2:{ exact Hp. }
      2:{ exact Hm. }
      cbn [mbind option_bind run_cont handleMessage_resume].
      rewrite IH.
      2:{ exact Hm. }
      2:{ exact Hp. }
      do 2 f_equal.
      destruct_world w. fields. rewrite <- !app_assoc. reflexivity.
    + rewrite IH by done. reflexivity.
Qed.

(** X1.  Function calls that name another function than
    [change_visualizer_color] are skipped: a message whose calls all name
    other functions is handled, in the same task, exactly like the message
    without its tool calls.  No colour is set and no response is sent. *)
Theorem unknown_tool_calls_ignored fcs m w :
  toolCall m = Some fcs → Forall (λ fc, known_call fc = false) fcs →
  handleMessage m w = handleMessage_serverContent m w.
Proof.
  intros Ht Hf. unfold handleMessage. rewrite Ht.
  by apply handleMessage_calls_unknown.
Qed.

Lemma unknown_tool_calls_ignored_witness :
  handleMessage (toolMessage [otherCall]) (connected_world 0)
  = handleMessage_serverContent (toolMessage [otherCall]) (connected_world 0).
Proof.
  apply (unknown_tool_calls_ignored [otherCall]); [reflexivity|].
  by repeat constructor.
Defined.

(** X2.  With the session promise fulfilled, a message with tool calls is
    handled in one job per known call: for each known call, in the order of
    the message, the colour is set and then the response with the call's id
    and name is sent to the session; unknown calls in between are skipped.
    The rest of the message (audio, transcriptions, turn completion,
    interruption) is handled after the last response. *)
Theorem tool_calls_answered_in_order c m fcs session w :
  microtasks w = [] → is_connection c w = true →
  toolCall m = Some fcs →
  promises w !! sessionPromise w = Some (Fulfilled (VSession session)) →
  run (EvMessage c m :: replicate (known_calls fcs) EvMicrotask) w
  = Some (handleMessage_serverContent m
            (set_trace (trace w ++ tool_effects session fcs) w)).
Proof.
  intros Hm Hc Ht Hp. cbn [run]. rewrite step_message by done.
  cbn [mbind option_bind]. unfold handleMessage. rewrite Ht.
  by apply handleMessage_calls_fulfilled.
Qed.

Lemma tool_calls_answered_in_order_witness :
  run (EvMessage 1 (toolMessage [redCall; otherCall; blueCall])
       :: replicate (known_calls [redCall; otherCall; blueCall]) EvMicrotask)
    (connected_world 0)
  = Some (handleMessage_serverContent
            (toolMessage [redCall; otherCall; blueCall])
            (set_trace
               (trace (connected_world 0)
                ++ tool_effects 1 [redCall; otherCall; blueCall])
               (connected_world 0))).
Proof.
  apply (tool_calls_answered_in_order 1 _ [redCall; otherCall; blueCall] 1).
  - vm_compute; reflexivity.
  - vm_compute; reflexivity.
  - reflexivity.
  - vm_compute; reflexivity.
Defined.

(** X3.  With the session promise rejected, a message whose first known
    call is [fc], after any number of calls of other functions, changes the
    colour and nothing else: no response is sent, the later calls are not
    looked at, and the rest of the message (audio, transcriptions, turn
    completion, interruption) is dropped. *)
Theorem tool_call_on_failed_session c m skipped fc rest msg w :
  microtasks w = [] → is_connection c w = true →
  toolCall m = Some (skipped ++ fc :: rest) →
  Forall (λ fc, known_call fc = false) skipped → known_call fc = true →
  promises w !! sessionPromise w = Some (Rejected msg) →
  run [EvMessage c m; EvMicrotask] w = Some (emit (SetColor (fc_color fc)) w).
Proof.
  intros Hm Hc Ht Hs Hk Hp. cbn [run]. rewrite step_message by done.
  cbn [mbind option_bind]. unfold handleMessage. rewrite Ht. clear Ht.
  induction Hs as [|fc0 skipped Hfc0 _ IH].
  - cbn [app handleMessage_calls]. unfold known_call in Hk. rewrite Hk.
    rewrite (await_settled _ (Rejected msg)) by done. reflexivity.
  - cbn [app handleMessage_calls]. unfold known_call in Hfc0.
    rewrite Hfc0. exact IH.
Qed.

(** A late message of the first session (1), whose connection was
    established and has been closed by the reset, arrives after the
    connection that was to replace it has failed. *)
Lemma tool_call_on_failed_session_witness :
  run [EvMessage 1 (toolMessage [otherCall; redCall; blueCall]); EvMicrotask]
    reset_failed_world
  = Some (emit (SetColor "red") reset_failed_world).
Proof.
  apply (tool_call_on_failed_session 1 _ [otherCall] redCall [blueCall]
           "offline").
  - vm_compute; reflexivity.
  - vm_compute; reflexivity.
  - reflexivity.
  - by repeat constructor.
  - reflexivity.
  - vm_compute; reflexivity.
Defined.

(** ** Transcriptions and the export *)

Lemma handleMessage_fragment f fs w :
  _currentInput (handleMessage (fragmentMessage f) w) ++ heard fs
  = _currentInput w ++ heard (f :: fs)
  ∧ _currentOutput (handleMessage (fragmentMessage f) w) ++ spoken fs
    = _currentOutput w ++ spoken (f :: fs)
  ∧ transcriptionHistory (handleMessage (fragmentMessage f) w)
    = transcriptionHistory w.
Proof.
  destruct f as [t|t]; cbn [heard spoken]; rewrite ?app_assoc;
    repeat split; reflexivity.
Qed.

Lemma handleMessages_fragments fs : ∀ w,
  _currentInput (handleMessages (fragmentMessage <$> fs) w)
  = _currentInput w ++ heard fs
  ∧ _currentOutput (handleMessages (fragmentMessage <$> fs) w)
    = _currentOutput w ++ spoken fs
  ∧ transcriptionHistory (handleMessages (fragmentMessage <$> fs) w)
    = transcriptionHistory w.
Proof.
  unfold handleMessages.
  induction fs as [|f fs IH]; intros w.
  - simpl. by rewrite !app_nil_r.
  - rewrite fmap_cons. cbn [foldl].
    destruct (IH (handleMessage (fragmentMessage f) w)) as (H1 & H2 & H3).
    destruct (handleMessage_fragment f fs w) as (F1 & F2 & F3).
    rewrite H1, H2, H3, F1, F2, F3. done.
Qed.

Lemma handleMessage_turnCompleteMessage w :
  transcriptionHistory (handleMessage turnCompleteMessage w)
  = transcriptionHistory w
    ++ (if non_blank (_currentInput w)
        then [{| speaker := You; text := _currentInput w |}] else [])
    ++ (if non_blank (_currentOutput w)
        then [{| speaker := Gemini; text := _currentOutput w |}] else [])
  ∧ _currentInput (handleMessage turnCompleteMessage w) = []
  ∧ _currentOutput (handleMessage turnCompleteMessage w) = [].
Proof.
  destruct (handleMessage_rest_turnComplete turnCompleteMessage w eq_refl)
    as (H1 & H2 & H3 & _).
  exact (conj H1 (conj H2 H3)).
Qed.

(** X4.  The fragments of a turn make up its entries.  When fragments of
    the user's and of the assistant's transcription arrive in any
    interleaving, each side's texts are joined in the order of arrival (a
    fragment without text contributes the word "undefined") and the history
    is left alone; the turn completion that follows appends the user's text
    and then the assistant's, each only if it has a code unit that is not
    white space as [trim] sees it, and empties both accumulators. *)
Theorem fragments_make_the_turn fs w :
  let w1 := handleMessages (fragmentMessage <$> fs) w in
  let w2 := handleMessage turnCompleteMessage w1 in
  let said := _currentInput w ++ heard fs in
  let answered := _currentOutput w ++ spoken fs in
  _currentInput w1 = said ∧ _currentOutput w1 = answered
  ∧ transcriptionHistory w1 = transcriptionHistory w
  ∧ transcriptionHistory w2
    = transcriptionHistory w
      ++ (if non_blank said then [{| speaker := You; text := said |}] else [])
      ++ (if non_blank answered
          then [{| speaker := Gemini; text := answered |}] else [])
  ∧ _currentInput w2 = [] ∧ _currentOutput w2 = [].
Proof.
  intros w1 w2 said answered.
  destruct (handleMessages_fragments fs w) as (H1 & H2 & H3).
  destruct (handleMessage_turnCompleteMessage w1) as (H4 & H5 & H6).
  fold w1 in H1, H2, H3. fold w2 in H4, H5, H6.
  rewrite H1, H2, H3 in H4. done.
Qed.

(** X5.  The export covers completed turns only: the text of a turn that
    is still being transcribed is not part of what [exportConversation]
    saves, however many fragments have arrived. *)
Theorem unfinished_turn_not_exported fs w :
  exportConversation (handleMessages (fragmentMessage <$> fs) w)
  = exportConversation w.
Proof.
  destruct (handleMessages_fragments fs w) as (_ & _ & H).
  unfold exportConversation. by rewrite H.
Qed.

Lemma Array_join_app sep l1 : ∀ l2,
  Array_join sep (l1 ++ l2)
  = match l1, l2 with
    | [], _ => Array_join sep l2
    | _, [] => Array_join sep l1
    | _ :: _, _ :: _ => Array_join sep l1 ++ sep ++ Array_join sep l2
    end.
Proof.
  induction l1 as [|y l1 IH]; intros l2; [done|].
  destruct l2 as [|x l2]; [by rewrite app_nil_r|].
  cbn [app]. change (Array_join sep (y :: l1 ++ x :: l2))
    with (match l1 ++ x :: l2 with
          | [] => y
          | _ :: _ => y ++ sep ++ Array_join sep (l1 ++ x :: l2)
          end).
  destruct l1 as [|z l1]; [done|].
  specialize (IH (x :: l2)). cbn [app] in *. rewrite IH.
  change (Array_join sep (y :: z :: l1))
    with (y ++ sep ++ Array_join sep (z :: l1)).
  by rewrite <- !app_assoc.
Qed.

(** X6.  Exports grow by appending: when the history has grown by further
    entries since an export that saved [content], the next export saves
    [content], a blank line, and the lines of the further entries, under
    the same file name [conversation.txt]. *)
Theorem export_extends_earlier_export w w' e more content :
  exportConversation w
  = Save "conversation.txt" "text/plain;charset=utf-8" content →
  transcriptionHistory w' = transcriptionHistory w ++ e :: more →
  exportConversation w'
  = Save "conversation.txt" "text/plain;charset=utf-8"
      (content ++ blank_line ++ formattedText (e :: more)).
Proof.
  unfold exportConversation. intros H1 H2. rewrite H2.
  destruct (transcriptionHistory w) as [|e0 h] eqn:E; [done|].
  cbn [length Nat.eqb] in H1. injection H1 as <-.
  rewrite length_app. cbn [length Nat.add Nat.eqb].
  unfold formattedText. rewrite fmap_app, Array_join_app.
  reflexivity.
Qed.

Lemma export_extends_earlier_export_witness :
  exportConversation two_turns_world
  = Save "conversation.txt" "text/plain;charset=utf-8"
      (code_units "You: stale" ++ blank_line
       ++ formattedText [{| speaker := You; text := code_units "stale" |}]).
Proof.
  apply (export_extends_earlier_export one_turn_world two_turns_world
           {| speaker := You; text := code_units "stale" |} []).
  - vm_compute; reflexivity.
  - vm_compute; reflexivity.
Defined.

Lemma applySettingsAndResetSession_resume_history v w :
  transcriptionHistory (applySettingsAndResetSession_resume (Fulfilled v) w) = [].
Proof.
  unfold applySettingsAndResetSession_resume, initSession, initSession_resume,
    settle.
  destruct_world w. destruct v, client0; fields;
    try match goal with |- context [_ !! _] => destruct (_ !! _) end;
    reflexivity.
Qed.

(** X7.  With an empty history [exportConversation] saves nothing and
    shows the alert, and only then; in particular there is nothing to
    export once new settings have been applied, whatever the history was. *)
Theorem export_of_empty_history v w :
  (exportConversation w = Alert "No conversation to export."
   ↔ transcriptionHistory w = [])
  ∧ exportConversation (applySettingsAndResetSession_resume (Fulfilled v) w)
    = Alert "No conversation to export.".
Proof.
  unfold exportConversation. split.
  - destruct (transcriptionHistory w); simpl; split; done.
  - by rewrite applySettingsAndResetSession_resume_history.
Qed.

(** ** Applying settings *)

Lemma applySettingsAndResetSession_resume_settings v w :
  settings (applySettingsAndResetSession_resume (Fulfilled v) w)
  = {| se_currentVoice := pendingVoice w;
       se_currentSystemInstruction := pendingSystemInstruction w;
       se_pendingVoice := pendingVoice w;
       se_pendingSystemInstruction := pendingSystemInstruction w |}.
Proof.
  unfold applySettingsAndResetSession_resume, initSession, initSession_resume,
    settle.
  destruct_world w. destruct v, client0; fields;
    try match goal with |- context [_ !! _] => destruct (_ !! _) end;
    reflexivity.
Qed.

(** X8.  Applying makes the pending settings the current ones and leaves
    the pending ones alone, so that afterwards the settings count as
    unchanged and the button that applies them is disabled until a setting
    is edited again. *)
Theorem applied_settings_are_current v confirmed w :
  let w' := applySettingsAndResetSession_resume (Fulfilled v) w in
  currentVoice w' = pendingVoice w
  ∧ currentSystemInstruction w' = pendingSystemInstruction w
  ∧ pendingVoice w' = pendingVoice w
  ∧ pendingSystemInstruction w' = pendingSystemInstruction w
  ∧ settingsChanged w' = false
  ∧ task (EvApply confirmed) w' = None.
Proof.
  intros w'.
  pose proof (applySettingsAndResetSession_resume_settings v w) as H.
  fold w' in H.
  assert (Hc : settingsChanged w' = false).
  { unfold settingsChanged, currentVoice, currentSystemInstruction,
      pendingVoice, pendingSystemInstruction. rewrite H. cbn.
    by rewrite !String.eqb_refl. }
  split. { unfold currentVoice. by rewrite H. }
  split. { unfold currentSystemInstruction. by rewrite H. }
  split. { unfold pendingVoice at 1. by rewrite H. }
  split. { unfold pendingSystemInstruction at 1. by rewrite H. }
  split; [done|]. cbn [task]. by rewrite Hc.
Qed.

(** X9.  A session that could not be established is not replaced by
    applying settings.  When the session promise is rejected, the method
    stops at its [await]: the pending settings are not made current, no new
    connection is requested, and the session promise stays the rejected
    one, so the same holds for every later attempt. *)
Theorem failed_session_is_not_replaced confirmed msg w :
  microtasks w = [] → settingsChanged w = true →
  isConversing w && negb confirmed = false →
  promises w !! sessionPromise w = Some (Rejected msg) →
  ∃ w',
    run [EvApply confirmed; EvMicrotask] w = Some w'
    ∧ settings w' = settings w ∧ settingsChanged w' = true
    ∧ sessionState w' = sessionState w
    ∧ sessionPromise w' = sessionPromise w
    ∧ requests w' = requests w ∧ promises w' = promises w
    ∧ microtasks w' = [].
Proof.
  intros Hm Hs Hc Hp.
  destruct (stopConversation_frame w)
    as (_ & _ & S3 & _ & _ & S6 & _ & _ & _ & S10 & S11).
  destruct (stopCamera_frame (stopConversation w))
    as (_ & _ & C3 & _ & _ & C6 & _ & _ & _ & C10 & C11).
  destruct S11 as (_ & _ & S12 & S13 & _ & S14 & _).
  destruct C11 as (_ & _ & C12 & C13 & _ & C14 & _).
  exists (stopCamera (stopConversation w)). split.
  { erewrite run_task; [|done|done|].
    2:{ cbn [task]. rewrite Hs. reflexivity. }
    unfold applySettingsAndResetSession. rewrite Hc.
    erewrite run_await.
    2:{ rewrite C10, S10, C13, S13. exact Hp. }
    2:{ by rewrite C14, S14. }
    reflexivity. }
  unfold settingsChanged, currentVoice, currentSystemInstruction,
    pendingVoice, pendingSystemInstruction in *.
  rewrite C6, S6, C3, S3, C10, S10, C12, S12, C13, S13, C14, S14.
  done.
Qed.

Lemma failed_session_is_not_replaced_witness :
  ∃ w',
    run [EvApply true; EvMicrotask] failed_world_Puck = Some w'
    ∧ settings w' = settings failed_world_Puck
    ∧ settingsChanged w' = true
    ∧ sessionState w' = sessionState failed_world_Puck
    ∧ sessionPromise w' = sessionPromise failed_world_Puck
    ∧ requests w' = requests failed_world_Puck
    ∧ promises w' = promises failed_world_Puck
    ∧ microtasks w' = [].
Proof.
  apply (failed_session_is_not_replaced true "offline").
  - vm_compute; reflexivity.
  - vm_compute; reflexivity.
  - vm_compute; reflexivity.
  - vm_compute; reflexivity.
Defined.

(** ** The camera *)

(** X10.  Switching the camera on and off again.  Once the stream is
    granted and the preview plays, the camera is on with that stream and a
    new interval timer; switching it off stops the stream's tracks, clears
    that timer and leaves no camera field assigned.  The calls made are the
    two requests and the two releases, in this order. *)
Theorem camera_on_then_off v p w :
  ready p w → isCameraOn w = false →
  ∃ w1,
    run [EvToggleCamera; EvSettle p (Fulfilled (VMediaStream v)); EvMicrotask;
         EvSettle (S p) (Fulfilled VUndefined); EvMicrotask] w = Some w1
    ∧ isCameraOn w1 = true ∧ videoStream w1 = Some v ∧ srcObject w1 = Some v
    ∧ frameIntervalRef w1 = Some (S (S p))
    ∧ ∃ w2,
        step EvToggleCamera w1 = Some w2
        ∧ isCameraOn w2 = false ∧ camera w2 = camera_off
        ∧ trace w2 = trace w ++ [Call p (GetUserMedia true); Call (S p) Play;
                                 TrackStop v; ClearInterval (S (S p))].
Proof.
  intros Hr Hc.
  eexists. split.
  { erewrite run_task; [|apply Hr|done|reflexivity].
    unfold toggleCamera, startCamera. rewrite Hc.
    rewrite run_request; [|exact Hr|reflexivity].
    cbn [run_cont startCamera_resume1].
    rewrite run_request; [|same_runtime; by apply ready_requested|reflexivity].
    cbn [run_cont startCamera_resume2 run]. reflexivity. }
  destruct Hr as (_ & Hm & <-). unfold requested.
  destruct_world w. fields. subst.
  split; [reflexivity|]. split; [reflexivity|]. split; [reflexivity|].
  split; [reflexivity|]. eexists. split.
  { rewrite step_task by done. reflexivity. }
  unfold camera_off, toggleCamera, stopCamera. fields.
  split; [reflexivity|]. split; [reflexivity|].
  by rewrite <- !app_assoc.
Qed.

Lemma camera_on_then_off_witness :
  ∃ w1,
    run [EvToggleCamera; EvSettle 3 (Fulfilled (VMediaStream 7)); EvMicrotask;
         EvSettle 4 (Fulfilled VUndefined); EvMicrotask] (connected_world 0)
    = Some w1
    ∧ isCameraOn w1 = true ∧ videoStream w1 = Some 7%nat
    ∧ srcObject w1 = Some 7%nat ∧ frameIntervalRef w1 = Some 5%nat
    ∧ ∃ w2,
        step EvToggleCamera w1 = Some w2
        ∧ isCameraOn w2 = false ∧ camera w2 = camera_off
        ∧ trace w2
          = trace (connected_world 0)
            ++ [Call 3 (GetUserMedia true); Call 4 Play; TrackStop 7;
                ClearInterval 5].
Proof.
  apply (camera_on_then_off 7 3 (connected_world 0)).
  - ready_by_evaluation.
  - vm_compute; reflexivity.
Defined.

(** X11.  The preview fails to play after the stream was granted: the
    error is shown and the camera stays off, but the granted stream stays
    assigned and its tracks are never stopped, because [stopCamera] returns
    at its guard when the camera is not on. *)
Theorem camera_preview_failure_keeps_stream v msg p w :
  ready p w → isCameraOn w = false →
  ∃ w1,
    run [EvToggleCamera; EvSettle p (Fulfilled (VMediaStream v)); EvMicrotask;
         EvSettle (S p) (Rejected msg); EvMicrotask] w = Some w1
    ∧ isCameraOn w1 = false ∧ error w1 = "Camera error: " +:+ msg
    ∧ videoStream w1 = Some v ∧ srcObject w1 = Some v
    ∧ trace w1 = trace w ++ [Call p (GetUserMedia true); Call (S p) Play]
    ∧ stopCamera w1 = w1.
Proof.
  intros Hr Hc.
  eexists. split.
  { erewrite run_task; [|apply Hr|done|reflexivity].
    unfold toggleCamera, startCamera. rewrite Hc.
    rewrite run_request; [|exact Hr|reflexivity].
    cbn [run_cont startCamera_resume1].
    rewrite run_request; [|same_runtime; by apply ready_requested|reflexivity].
    cbn [run_cont startCamera_resume2 run]. reflexivity. }
  destruct Hr as (_ & Hm & <-).
  unfold requested, startCamera_catch, stopCamera.
  destruct_world w. fields. subst.
  repeat split. by rewrite <- !app_assoc.
Qed.

Lemma camera_preview_failure_keeps_stream_witness :
  ∃ w1,
    run [EvToggleCamera; EvSettle 3 (Fulfilled (VMediaStream 7)); EvMicrotask;
         EvSettle 4 (Rejected "NotAllowedError"); EvMicrotask]
      (connected_world 0) = Some w1
    ∧ isCameraOn w1 = false
    ∧ error w1 = "Camera error: " +:+ "NotAllowedError"
    ∧ videoStream w1 = Some 7%nat ∧ srcObject w1 = Some 7%nat
    ∧ trace w1
      = trace (connected_world 0) ++ [Call 3 (GetUserMedia true); Call 4 Play]
    ∧ stopCamera w1 = w1.
Proof.
  apply (camera_preview_failure_keeps_stream 7 "NotAllowedError" 3
           (connected_world 0)).
  - ready_by_evaluation.
  - vm_compute; reflexivity.
Defined.

(** X12.  While the camera is on, a tick of the frame timer whose image is
    encoded to [d] sends [d], as a JPEG, to the session that the session
    promise is fulfilled with, and does nothing else. *)
Theorem frame_sent_to_session d session p w :
  ready p w → isCameraOn w = true →
  promises w !! sessionPromise w = Some (Fulfilled (VSession session)) →
  ∃ w',
    run [EvFrameTimer; EvSettle p (Fulfilled (VBase64 d)); EvMicrotask;
         EvMicrotask] w = Some w'
    ∧ trace w' = trace w ++ [Call p EncodeFrame;
                             SendRealtimeInput session (Jpeg d)]
    ∧ ui w' = ui w ∧ camera w' = camera w ∧ microtasks w' = [].
Proof.
  intros Hr Hc Hs.
  eexists. split.
  { erewrite run_task; [|apply Hr|done|reflexivity].
    unfold onframe. rewrite Hc. cbn [negb].
    rewrite run_request; [|exact Hr|reflexivity].
    cbn [run_cont onframe_resume].
    erewrite run_await.
    2:{ apply requested_session; [apply Hr|exact Hs]. }
    2:{ by apply (ready_requested EncodeFrame (Fulfilled (VBase64 d)) p w). }
    cbn [run_cont frame_then_run run]. reflexivity. }
  clear Hs. destruct Hr as (_ & Hm & <-). unfold requested.
  destruct_world w. fields. subst.
  split; [|done]. by rewrite <- !app_assoc.
Qed.

Lemma frame_sent_to_session_witness :
  ∃ w',
    run [EvFrameTimer; EvSettle 6 (Fulfilled (VBase64 "/9j/4AAQ")); EvMicrotask;
         EvMicrotask] camera_world = Some w'
    ∧ trace w' = trace camera_world
                 ++ [Call 6 EncodeFrame;
                     SendRealtimeInput 1 (Jpeg "/9j/4AAQ")]
    ∧ ui w' = ui camera_world ∧ camera w' = camera camera_world
    ∧ microtasks w' = [].
Proof.
  apply (frame_sent_to_session "/9j/4AAQ" 1 6 camera_world).
  - ready_by_evaluation.
  - vm_compute; reflexivity.
  - vm_compute; reflexivity.
Defined.

(** X13.  A frame is dropped without any sign to the user, the status line
    included, when the canvas yields no image, and when the session promise
    is rejected: the encoding is the only call made. *)
Theorem frame_dropped_silently d msg p w :
  ready p w → isCameraOn w = true →
  (∃ w',
     run [EvFrameTimer; EvSettle p (Fulfilled VUndefined); EvMicrotask] w
     = Some w'
     ∧ trace w' = trace w ++ [Call p EncodeFrame]
     ∧ ui w' = ui w ∧ microtasks w' = [])
  ∧ (promises w !! sessionPromise w = Some (Rejected msg) →
     ∃ w',
       run [EvFrameTimer; EvSettle p (Fulfilled (VBase64 d)); EvMicrotask;
            EvMicrotask] w = Some w'
       ∧ trace w' = trace w ++ [Call p EncodeFrame]
       ∧ ui w' = ui w ∧ microtasks w' = []).
Proof.
  intros Hr Hc.
  split; [|intros Hs].
  - eexists. split.
    { erewrite run_task; [|apply Hr|done|reflexivity].
      unfold onframe. rewrite Hc. cbn [negb].
      rewrite run_request; [|exact Hr|reflexivity].
      cbn [run_cont onframe_resume run]. reflexivity. }
    destruct Hr as (_ & Hm & <-). unfold requested.
    destruct_world w. fields. by subst.
  - eexists. split.
    { erewrite run_task; [|apply Hr|done|reflexivity].
      unfold onframe. rewrite Hc. cbn [negb].
      rewrite run_request; [|exact Hr|reflexivity].
      cbn [run_cont onframe_resume].
      erewrite run_await.
      2:{ apply requested_session; [apply Hr|exact Hs]. }
      2:{ by apply (ready_requested EncodeFrame (Fulfilled (VBase64 d)) p w). }
      cbn [run_cont frame_then_run run]. reflexivity. }
    clear Hs. destruct Hr as (_ & Hm & <-). unfold requested.
    destruct_world w. fields. by subst.
Qed.

Lemma frame_dropped_silently_witness :
  (∃ w',
     run [EvFrameTimer; EvSettle 6 (Fulfilled VUndefined); EvMicrotask]
       failed_camera_world = Some w'
     ∧ trace w' = trace failed_camera_world ++ [Call 6 EncodeFrame]
     ∧ ui w' = ui failed_camera_world ∧ microtasks w' = [])
  ∧ (∃ w',
       run [EvFrameTimer; EvSettle 6 (Fulfilled (VBase64 "/9j/4AAQ"));
            EvMicrotask; EvMicrotask] failed_camera_world = Some w'
       ∧ trace w' = trace failed_camera_world ++ [Call 6 EncodeFrame]
       ∧ ui w' = ui failed_camera_world ∧ microtasks w' = []).
Proof.
  destruct (frame_dropped_silently "/9j/4AAQ" "offline" 6 failed_camera_world)
    as [H1 H2].
  - ready_by_evaluation.
  - vm_compute; reflexivity.
  - split; [exact H1|]. apply H2. vm_compute; reflexivity.
Defined.

(** ** The conversation *)

(** X14.  Starting a conversation and stopping it again, from a connected
    state in which nothing has been started.  Once the input context has
    resumed and the microphone is granted, the conversation is on with the
    granted stream and two new nodes; stopping it disconnects the processor
    node, then the source node, then stops the stream's tracks, leaves no
    capture field assigned and shows "Conversation stopped.". *)
Theorem conversation_started_then_stopped m p w :
  ready p w → sessionState w = Connected → never_started w →
  ∃ w1,
    run [EvToggleConversation; EvSettle p (Fulfilled VUndefined); EvMicrotask;
         EvSettle (S p) (Fulfilled (VMediaStream m)); EvMicrotask] w = Some w1
    ∧ isConversing w1 = true ∧ mediaStream w1 = Some m
    ∧ sourceNode w1 = Some (S (S p))
    ∧ scriptProcessorNode w1 = Some (S (S (S p)))
    ∧ ∃ w2,
        step EvToggleConversation w1 = Some w2
        ∧ isConversing w2 = false ∧ capture w2 = capture_off
        ∧ status w2 = "Conversation stopped."
        ∧ trace w2 = trace w ++ [Call p Resume; Call (S p) (GetUserMedia false);
                                 Disconnect (S (S (S p))); Disconnect (S (S p));
                                 TrackStop m].
Proof.
  intros Hr Hs (Hc & Hn).
  eexists. split.
  { erewrite run_task; [|apply Hr|done|by apply toggleConversation_task].
    unfold toggleConversation, startConversation. rewrite Hc, Hs.
    rewrite bool_decide_true by done. cbn [orb negb].
    rewrite run_request; [|exact Hr|reflexivity].
    cbn [run_cont startConversation_resume1]. cbv zeta.
    rewrite run_request;
      [|same_runtime; by apply ready_requested|reflexivity].
    cbn [run_cont startConversation_resume2 run]. reflexivity. }
  destruct Hr as (_ & Hm & <-). unfold requested.
  destruct Hn as (? & ? & ? & ? & ? & ? & ?).
  destruct_world w. fields. subst.
  split; [reflexivity|]. split; [reflexivity|]. split; [reflexivity|].
  split; [reflexivity|]. eexists. split.
  { rewrite step_task by done. reflexivity. }
  unfold capture_off, toggleConversation, stopConversation, stopRecording.
  fields.
  split; [reflexivity|]. split; [reflexivity|]. split; [reflexivity|].
  by rewrite <- !app_assoc.
Qed.

Lemma conversation_started_then_stopped_witness :
  ∃ w1,
    run [EvToggleConversation; EvSettle 3 (Fulfilled VUndefined); EvMicrotask;
         EvSettle 4 (Fulfilled (VMediaStream 9)); EvMicrotask]
      (connected_world 0) = Some w1
    ∧ isConversing w1 = true ∧ mediaStream w1 = Some 9%nat
    ∧ sourceNode w1 = Some 5%nat ∧ scriptProcessorNode w1 = Some 6%nat
    ∧ ∃ w2,
        step EvToggleConversation w1 = Some w2
        ∧ isConversing w2 = false ∧ capture w2 = capture_off
        ∧ status w2 = "Conversation stopped."
        ∧ trace w2
          = trace (connected_world 0)
            ++ [Call 3 Resume; Call 4 (GetUserMedia false); Disconnect 6;
                Disconnect 5; TrackStop 9].
Proof.
  apply (conversation_started_then_stopped 9 3 (connected_world 0)).
  - ready_by_evaluation.
  - vm_compute; reflexivity.
  - vm_compute. by repeat split.
Defined.

(** X15.  The microphone is refused: the error names the cause, nothing is
    left of the capture pipeline, no conversation is on, and the session
    stays connected, so the user can try again. *)
Theorem microphone_refused msg p w :
  ready p w → sessionState w = Connected → never_started w →
  ∃ w1,
    run [EvToggleConversation; EvSettle p (Fulfilled VUndefined); EvMicrotask;
         EvSettle (S p) (Rejected msg); EvMicrotask] w = Some w1
    ∧ isConversing w1 = false ∧ capture w1 = capture_off
    ∧ sessionState w1 = Connected
    ∧ error w1 = "Microphone Error: " +:+ msg ∧ status w1 = EmptyString
    ∧ trace w1 = trace w ++ [Call p Resume; Call (S p) (GetUserMedia false)].
Proof.
  intros Hr Hs (Hc & Hn).
  eexists. split.
  { erewrite run_task; [|apply Hr|done|by apply toggleConversation_task].
    unfold toggleConversation, startConversation. rewrite Hc, Hs.
    rewrite bool_decide_true by done. cbn [orb negb].
    rewrite run_request; [|exact Hr|reflexivity].
    cbn [run_cont startConversation_resume1]. cbv zeta.
    rewrite run_request;
      [|same_runtime; by apply ready_requested|reflexivity].
    cbn [run_cont startConversation_resume2 run]. reflexivity. }
  destruct Hr as (_ & Hm & <-). unfold requested.
  destruct Hn as (? & ? & ? & ? & ? & ? & ?).
  destruct_world w. fields. subst.
  unfold capture_off, stopConversation, stopRecording. fields.
  repeat split. by rewrite <- !app_assoc.
Qed.

Lemma microphone_refused_witness :
  ∃ w1,
    run [EvToggleConversation; EvSettle 3 (Fulfilled VUndefined); EvMicrotask;
         EvSettle 4 (Rejected "Permission denied"); EvMicrotask]
      (connected_world 0) = Some w1
    ∧ isConversing w1 = false ∧ capture w1 = capture_off
    ∧ sessionState w1 = Connected
    ∧ error w1 = "Microphone Error: " +:+ "Permission denied"
    ∧ status w1 = EmptyString
    ∧ trace w1
      = trace (connected_world 0)
        ++ [Call 3 Resume; Call 4 (GetUserMedia false)].
Proof.
  apply (microphone_refused "Permission denied" 3 (connected_world 0)).
  - ready_by_evaluation.
  - vm_compute; reflexivity.
  - vm_compute. by repeat split.
Defined.

(** ** The session recording *)

(** X16.  Starting a recording during a conversation and stopping it
    again.  Once the screen capture is granted, the recording is on with
    that stream, a new mixing context and a new recorder that has been
    started, and the chunk list is empty; stopping it stops the recorder,
    then the stream's tracks, then closes the context, and leaves the
    conversation running with its capture graph untouched. *)
Theorem recording_started_then_stopped screen m p w :
  ready p w → isConversing w = true → isRecording w = false →
  mediaStream w = Some m →
  ∃ w1,
    run [EvToggleRecording; EvSettle p (Fulfilled (VMediaStream screen));
         EvMicrotask] w = Some w1
    ∧ isRecording w1 = true ∧ screenStream w1 = Some screen
    ∧ recordingMixContext w1 = Some (S p)
    ∧ mediaRecorder w1 = Some (S (S p), Recording)
    ∧ recordedChunks w1 = []
    ∧ ∃ w2,
        step EvToggleRecording w1 = Some w2
        ∧ isRecording w2 = false ∧ isConversing w2 = true
        ∧ capture w2 = capture w
        ∧ screenStream w2 = None ∧ recordingMixContext w2 = None
        ∧ mediaRecorder w2 = Some (S (S p), Inactive)
        ∧ trace w2 = trace w ++ [Call p GetDisplayMedia; RecorderStart (S (S p));
                                 RecorderStop (S (S p)); TrackStop screen;
                                 ContextClose (S p)].
Proof.
  intros Hr Hc Hrec Hms.
  eexists. split.
  { erewrite run_task; [|apply Hr|done|by apply toggleRecording_task].
    unfold toggleRecording, startRecording. rewrite Hrec, Hc.
    cbn [negb]. cbv zeta.
    rewrite run_request; [|by same_runtime|reflexivity].
    cbn [run_cont startRecording_resume run]. reflexivity. }
  destruct Hr as (_ & Hm & <-). unfold requested.
  destruct_world w. fields. subst.
  split; [reflexivity|]. split; [reflexivity|]. split; [reflexivity|].
  split; [reflexivity|]. split; [reflexivity|]. eexists. split.
  { rewrite step_task by done. reflexivity. }
  unfold toggleRecording, stopRecording. fields.
  repeat split. by rewrite <- !app_assoc.
Qed.

Lemma recording_started_then_stopped_witness :
  ∃ w1,
    run [EvToggleRecording; EvSettle 7 (Fulfilled (VMediaStream 11));
         EvMicrotask] conversing_world = Some w1
    ∧ isRecording w1 = true ∧ screenStream w1 = Some 11%nat
    ∧ recordingMixContext w1 = Some 8%nat
    ∧ mediaRecorder w1 = Some (9%nat, Recording)
    ∧ recordedChunks w1 = []
    ∧ ∃ w2,
        step EvToggleRecording w1 = Some w2
        ∧ isRecording w2 = false ∧ isConversing w2 = true
        ∧ capture w2 = capture conversing_world
        ∧ screenStream w2 = None ∧ recordingMixContext w2 = None
        ∧ mediaRecorder w2 = Some (9%nat, Inactive)
        ∧ trace w2
          = trace conversing_world
            ++ [Call 7 GetDisplayMedia; RecorderStart 9; RecorderStop 9;
                TrackStop 11; ContextClose 8].
Proof.
  apply (recording_started_then_stopped 11 9 7 conversing_world).
  - ready_by_evaluation.
  - vm_compute; reflexivity.
  - vm_compute; reflexivity.
  - vm_compute; reflexivity.
Defined.

(** X17.  The screen capture is refused: the error names the cause, no
    recording is on, the recorder fields are as before, and the conversation
    goes on with its capture graph untouched. *)
Theorem screen_capture_refused msg p w :
  ready p w → isConversing w = true → isRecording w = false →
  ∃ w1,
    run [EvToggleRecording; EvSettle p (Rejected msg); EvMicrotask] w = Some w1
    ∧ isRecording w1 = false ∧ isConversing w1 = true
    ∧ capture w1 = capture w ∧ recorder w1 = recorder w
    ∧ error w1 = "Screen capture failed: " +:+ msg ∧ status w1 = EmptyString
    ∧ trace w1 = trace w ++ [Call p GetDisplayMedia].
Proof.
  intros Hr Hc Hrec.
  eexists. split.
  { erewrite run_task; [|apply Hr|done|by apply toggleRecording_task].
    unfold toggleRecording, startRecording. rewrite Hrec, Hc.
    cbn [negb]. cbv zeta.
    rewrite run_request; [|by same_runtime|reflexivity].
    cbn [run_cont startRecording_resume run]. reflexivity. }
  destruct Hr as (_ & Hm & <-). unfold requested, startRecording_catch.
  destruct_world w. fields. subst.
  repeat split.
Qed.

Lemma screen_capture_refused_witness :
  ∃ w1,
    run [EvToggleRecording; EvSettle 7 (Rejected "Permission denied");
         EvMicrotask] conversing_world = Some w1
    ∧ isRecording w1 = false ∧ isConversing w1 = true
    ∧ capture w1 = capture conversing_world
    ∧ recorder w1 = recorder conversing_world
    ∧ error w1 = "Screen capture failed: " +:+ "Permission denied"
    ∧ status w1 = EmptyString
    ∧ trace w1 = trace conversing_world ++ [Call 7 GetDisplayMedia].
Proof.
  apply (screen_capture_refused "Permission denied" 7 conversing_world).
  - ready_by_evaluation.
  - vm_compute; reflexivity.
  - vm_compute; reflexivity.
Defined.

(** X18.  The conversation is stopped while the screen-capture prompt is
    open, and the capture is granted afterwards.  The recording does not
    start and an error is shown, but the granted screen stream and the new
    mixing context stay assigned and are not released: the only calls made
    are the request and the teardown of the conversation.  They are released
    when the sharing is ended from the browser. *)
Theorem screen_granted_after_conversation_ended screen m src proc p w :
  ready p w → sessionState w = Connected →
  isConversing w = true → isRecording w = false →
  capture w = {| cp_mediaStream := Some m; cp_sourceNode := Some src;
                 cp_scriptProcessorNode := Some proc |} →
  mediaRecorder w = None → screenStream w = None →
  recordingMixContext w = None →
  ∃ w1,
    run [EvToggleRecording; EvToggleConversation;
         EvSettle p (Fulfilled (VMediaStream screen)); EvMicrotask] w = Some w1
    ∧ isConversing w1 = false ∧ isRecording w1 = false
    ∧ mediaRecorder w1 = None
    ∧ screenStream w1 = Some screen ∧ recordingMixContext w1 = Some (S p)
    ∧ error w1 = "Screen capture failed: " +:+ createMediaStreamSource_TypeError
    ∧ trace w1 = trace w ++ [Call p GetDisplayMedia; Disconnect proc;
                             Disconnect src; TrackStop m]
    ∧ ∃ w2,
        step EvScreenEnded w1 = Some w2
        ∧ screenStream w2 = None ∧ recordingMixContext w2 = None
        ∧ trace w2 = trace w1 ++ [TrackStop screen; ContextClose (S p)].
Proof.
  intros ((Hq & Hp & Hw) & Hm & <-) Hs Hc Hrec Hcap Hmr Hss Hmix.
  destruct (filter_waiters_fresh _ _ Hw) as [Hf1 Hf2].
  pose proof (map_Forall_fresh _ _ Hq) as Hqn.
  pose proof (map_Forall_fresh _ _ Hp) as Hpn.
  destruct_world w. fields. simplify_eq.
  erewrite run_task; [|done|done|reflexivity].
  unfold toggleRecording, startRecording. fields. lazy [negb]. rewrite Hpn.
  erewrite run_task; [|done|done|by apply toggleConversation_task].
  unfold toggleConversation, stopConversation, stopRecording. fields.
  rewrite (run_settle rt_next0 GetDisplayMedia).
  2:{ by fields. }
  2:{ fields. apply lookup_insert_eq. }
  2:{ by fields. }
  2:{ done. }
  unfold settle. fields.
  rewrite !filter_app, Hf1, Hf2. rewrite !filter_cons. cbn [fst snd].
  rewrite (decide_True (P := rt_next0 = rt_next0)) by done.
  rewrite (decide_False (P := rt_next0 ≠ rt_next0)) by (intros H; by apply H).
  rewrite !filter_nil, app_nil_r. cbn [app fmap list_fmap fst snd].
  erewrite run_microtask by (fields; reflexivity).
  eexists. split; [reflexivity|].
  unfold run_cont, startRecording_resume, startRecording_catch. fields.
  split; [reflexivity|]. split; [reflexivity|]. split; [reflexivity|].
  split; [reflexivity|]. split; [reflexivity|]. split; [reflexivity|].
  split. { by rewrite <- !app_assoc. }
  eexists. split.
  { rewrite step_task by done. reflexivity. }
  unfold stopRecording. fields.
  split; [reflexivity|]. split; [reflexivity|].
  by rewrite <- !app_assoc.
Qed.

Lemma screen_granted_after_conversation_ended_witness :
  ∃ w1,
    run [EvToggleRecording; EvToggleConversation;
         EvSettle 7 (Fulfilled (VMediaStream 11)); EvMicrotask]
      conversing_world = Some w1
    ∧ isConversing w1 = false ∧ isRecording w1 = false
    ∧ mediaRecorder w1 = None
    ∧ screenStream w1 = Some 11%nat ∧ recordingMixContext w1 = Some 8%nat
    ∧ error w1 = "Screen capture failed: " +:+ createMediaStreamSource_TypeError
    ∧ trace w1
      = trace conversing_world
        ++ [Call 7 GetDisplayMedia; Disconnect 6; Disconnect 5; TrackStop 9]
    ∧ ∃ w2,
        step EvScreenEnded w1 = Some w2
        ∧ screenStream w2 = None ∧ recordingMixContext w2 = None
        ∧ trace w2 = trace w1 ++ [TrackStop 11; ContextClose 8].
Proof.
  apply (screen_granted_after_conversation_ended 11 9 5 6 7 conversing_world).
  - ready_by_evaluation.
  - vm_compute; reflexivity.
  - vm_compute; reflexivity.
  - vm_compute; reflexivity.
  - vm_compute; reflexivity.
  - vm_compute; reflexivity.
  - vm_compute; reflexivity.
  - vm_compute; reflexivity.
Defined.

Lemma ondataavailable_chunks (chunks : list (Z * nat)) : ∀ w,
  let w' := foldl (λ w c, ondataavailable c.1 c.2 w) w chunks in
  recordedChunks w'
  = recordedChunks w ++ (snd <$> filter (λ c, 0 < c.1) chunks)
  ∧ trace w' = trace w.
Proof.
  induction chunks as [|[size chunk] chunks IH]; intros w; simpl.
  - by rewrite app_nil_r.
  - destruct (IH (ondataavailable size chunk w)) as [H1 H2].
    rewrite H1, H2. rewrite filter_cons. simpl.
    unfold ondataavailable. destruct (Z.ltb_spec 0 size).
    + rewrite decide_True by done. destruct_world w. fields.
      by rewrite <- app_assoc.
    + rewrite decide_False by lia. done.
Qed.

(** X19.  The recording that is downloaded consists of the chunks that
    carried data.  Of the chunks the recorder delivers, given with their
    sizes, those of size zero are dropped and the others are kept in the
    order of delivery; when the recorder stops, exactly the kept chunks are
    downloaded as [session-recording.webm] and the list is emptied. *)
Theorem recording_is_the_chunks_with_data (chunks : list (Z * nat)) w :
  let w1 := foldl (λ w c, ondataavailable c.1 c.2 w) w chunks in
  let kept := recordedChunks w ++ (snd <$> filter (λ c, 0 < c.1) chunks) in
  recordedChunks w1 = kept
  ∧ trace (onstop w1) = trace w ++ [Download "session-recording.webm" kept]
  ∧ recordedChunks (onstop w1) = [].
Proof.
  intros w1 kept.
  destruct (ondataavailable_chunks chunks w) as [H1 H2].
  fold w1 in H1, H2. fold kept in H1.
  split; [done|]. unfold onstop.
  change (trace (set_recordedChunks []
            (emit (Download "session-recording.webm" (recordedChunks w1)) w1))
          = trace w ++ [Download "session-recording.webm" kept]
          ∧ recordedChunks (set_recordedChunks []
              (emit (Download "session-recording.webm" (recordedChunks w1)) w1))
            = []).
  rewrite H1, <- H2. by destruct_world w1.
Qed.

(** ** Stopping *)

Lemma stopRecording_fixed mr chunks w :
  isRecording w = false →
  recorder w = {| rc_mediaRecorder := stopped mr; rc_recordedChunks := chunks;
                  rc_screenStream := None; rc_recordingMixContext := None |} →
  stopRecording w = w.
Proof.
  intros H1 H2. destruct_world w. fields. simplify_eq.
  unfold stopRecording. destruct mr as [[r []]|]; reflexivity.
Qed.

Lemma stopConversation_fixed mr chunks w :
  isConversing w = false → isRecording w = false →
  capture w = {| cp_mediaStream := None; cp_sourceNode := None;
                 cp_scriptProcessorNode := None |} →
  recorder w = {| rc_mediaRecorder := stopped mr; rc_recordedChunks := chunks;
                  rc_screenStream := None; rc_recordingMixContext := None |} →
  stopConversation w = w.
Proof.
  intros H1 H2 H3 H4. destruct_world w. fields. simplify_eq.
  unfold stopConversation, stopRecording. destruct mr as [[r []]|]; reflexivity.
Qed.

Lemma quiescent_fields mr chunks w :
  capture w = {| cp_mediaStream := None; cp_sourceNode := None;
                 cp_scriptProcessorNode := None |} →
  recorder w = {| rc_mediaRecorder := stopped mr; rc_recordedChunks := chunks;
                  rc_screenStream := None; rc_recordingMixContext := None |} →
  mediaStream w = None ∧ sourceNode w = None ∧ scriptProcessorNode w = None
  ∧ screenStream w = None ∧ recordingMixContext w = None
  ∧ recorder_active w = false.
Proof.
  unfold mediaStream, sourceNode, scriptProcessorNode, screenStream,
    recordingMixContext, recorder_active, mediaRecorder.
  intros -> ->. simpl. by destruct mr as [[r []]|].
Qed.

(** X20.  Stopping is idempotent and complete.  A second [stopRecording],
    [stopConversation] or [stopCamera] changes nothing and makes no call;
    and after [stopConversation], in whatever state it was called, no
    conversation and no recording is on, no field of the capture graph is
    assigned, the screen stream and the mixing context are released, and
    the recorder is not active. *)
Theorem stopping_twice_is_stopping_once w :
  stopRecording (stopRecording w) = stopRecording w
  ∧ stopConversation (stopConversation w) = stopConversation w
  ∧ stopCamera (stopCamera w) = stopCamera w
  ∧ isConversing (stopConversation w) = false
  ∧ isRecording (stopConversation w) = false
  ∧ mediaStream (stopConversation w) = None
  ∧ sourceNode (stopConversation w) = None
  ∧ scriptProcessorNode (stopConversation w) = None
  ∧ screenStream (stopConversation w) = None
  ∧ recordingMixContext (stopConversation w) = None
  ∧ recorder_active (stopConversation w) = false.
Proof.
  destruct (stopRecording_frame w) as (_ & _ & _ & R4 & _).
  destruct (stopRecording_spec w) as (_ & Rr & _).
  destruct (stopConversation_frame w)
    as (F1 & _ & _ & F4 & _ & _ & _ & F8 & _).
  destruct (stopConversation_spec w) as (_ & Hr & _).
  split. { exact (stopRecording_fixed _ _ _ R4 Rr). }
  split. { exact (stopConversation_fixed _ _ _ F1 F4 F8 Hr). }
  split.
  { unfold stopCamera. destruct_world w.
    destruct ui_isCameraOn0, cm_videoStream0, cm_frameIntervalRef0;
      fields; reflexivity. }
  split; [exact F1|]. split; [exact F4|].
  exact (quiescent_fields _ _ _ F8 Hr).
Qed.

(** X21.  What the status line shows once a session has ended with an
    error or has been closed.  During a conversation it shows "Conversation
    stopped."; otherwise, when a recorder was active, that the recording
    stopped; only when neither was running does it show the connection
    error, or "Connection closed.".  So the text of a connection error that
    arrives during a conversation is not shown. *)
Theorem status_line_after_session_end msg w :
  sessionState (onerror msg w) = Error
  ∧ statusLine (onerror msg w)
    = status_after_stop ("Connection Error: " +:+ msg) w
  ∧ sessionState (onclose w) = Idle
  ∧ statusLine (onclose w) = status_after_stop "Connection closed." w.
Proof.
  unfold onerror, onclose.
  destruct (stopConversation_spec
              (updateError ("Connection Error: " +:+ msg)
                 (set_sessionState Error w))) as (H1 & _).
  destruct (stopConversation_spec
              (updateStatus "Connection closed." (set_sessionState Idle w)))
    as (H2 & _).
  unfold statusLine, sessionState, error, status. rewrite H1, H2.
  clear H1 H2. unfold status_after_stop, recorder_active.
  destruct_world w. fields.
  destruct ui_isConversing0, rc_mediaRecorder0 as [[r []]|]; done.
Qed.

(** * The flags and what they promise *)

Ltac parts := repeat split; reflexivity.

Ltac consistent_cases :=
  unfold consistent, consistent_of in *; fields; lazy [negb orb andb] in *;
  intuition (try congruence; eauto).

Lemma consistent_unfold w :
  consistent w = consistent_of (ui w) (transcript w) (capture w) (recorder w).
Proof. reflexivity. Qed.

Lemma consistent_same_parts w w' : same_parts w w' → consistent w → consistent w'.
Proof. unfold consistent. by intros (-> & -> & -> & ->). Qed.

Lemma consistent_await p k w : consistent w → consistent (await p k w).
Proof.
  apply consistent_same_parts. unfold await. destruct (_ !! _); parts.
Qed.

Lemma consistent_settle p r w : consistent w → consistent (settle p r w).
Proof. apply consistent_same_parts. parts. Qed.

Lemma consistent_request_await r k w :
  consistent w → consistent (let '(p, w') := request r w in await p k w').
Proof.
  intros H.
  change (consistent (await (rt_next (runtime w)) k (request r w).2)).
  apply consistent_await. revert H. apply consistent_same_parts. parts.
Qed.

Lemma consistent_stopRecording w : consistent w → consistent (stopRecording w).
Proof.
  intros H. unfold stopRecording. destruct_world w.
  destruct rc_mediaRecorder0 as [[r []]|], rc_screenStream0,
    rc_recordingMixContext0; consistent_cases.
Qed.

Lemma consistent_stopCamera w : consistent w → consistent (stopCamera w).
Proof.
  intros H. unfold stopCamera. destruct_world w.
  destruct ui_isCameraOn0, cm_videoStream0, cm_frameIntervalRef0;
    consistent_cases.
Qed.

Lemma consistent_stopConversation w :
  consistent w → consistent (stopConversation w).
Proof.
  intros (_ & _ & H3 & H4 & H5).
  destruct (stopConversation_frame w)
    as (_ & _ & _ & _ & F5 & _ & _ & F8 & _).
  destruct (stopConversation_spec w) as (Hu & Hr & _).
  rewrite consistent_unfold, Hu, F5, F8, Hr.
  unfold consistent_of. cbn [ui_isConversing ui_isRecording ui_status ui_error
    cp_mediaStream cp_sourceNode cp_scriptProcessorNode].
  split; [done|]. split; [done|]. split; [|done].
  unfold status_after_stop, status, error.
  destruct (isConversing w); [by right|]. cbn [orb].
  destruct (recorder_active w); [by right|]. exact H3.
Qed.

Lemma consistent_updateStatus msg w :
  consistent w → consistent (updateStatus msg w).
Proof. intros H. destruct_world w. consistent_cases. Qed.

Lemma consistent_updateError msg w :
  consistent w → consistent (updateError msg w).
Proof. intros H. destruct_world w. consistent_cases. Qed.

Lemma consistent_set_sessionState s w :
  consistent w → consistent (set_sessionState s w).
Proof. intros H. destruct_world w. consistent_cases. Qed.

Lemma consistent_handleMessage_rest m w :
  consistent w → consistent (handleMessage_rest m w).
Proof.
  intros H. unfold handleMessage_rest.
  assert (H1 : consistent (handleMessage_audio m w)).
  { revert H. apply consistent_same_parts. unfold handleMessage_audio.
    destruct (modelTurn m) as [[[[|[[d|]] ?]|]]|]; cbn [parts inlineData];
      try parts.
    destruct (truthy d); [|parts].
    unfold playAudio, request, new_object, await. cbn [fst snd].
    destruct (_ !! _); parts. }
  revert H1. generalize (handleMessage_audio m w). clear H w. intros w H.
  assert (H2 : consistent
                 (handleMessage_turnComplete m
                    (handleMessage_outputTranscription m
                       (handleMessage_inputTranscription m w)))).
  { unfold handleMessage_turnComplete, handleMessage_outputTranscription,
      handleMessage_inputTranscription.
    destruct_world w.
    destruct (inputTranscription m), (outputTranscription m), (turnComplete m);
      consistent_cases. }
  revert H2. apply consistent_same_parts.
  unfold handleMessage_interrupted. destruct (interrupted m); [|parts].
  rewrite stop_sources_trace. parts.
Qed.

Lemma consistent_handleMessage_serverContent m w :
  consistent w → consistent (handleMessage_serverContent m w).
Proof.
  intros H. unfold handleMessage_serverContent.
  destruct (parts_missing m); [done|]. by apply consistent_handleMessage_rest.
Qed.

Lemma consistent_handleMessage_calls fcs m : ∀ w,
  consistent w → consistent (handleMessage_calls fcs m w).
Proof.
  induction fcs as [|fc fcs IH]; intros w H; cbn [handleMessage_calls].
  - by apply consistent_handleMessage_serverContent.
  - destruct (String.eqb _ _); [|by apply IH].
    apply consistent_await. revert H. apply consistent_same_parts. parts.
Qed.

Lemma consistent_initSession v s w :
  consistent w → consistent (initSession v s w).2.
Proof.
  intros H.
  unfold initSession, initSession_resume, settle, request, new_object, await.
  cbn [fst snd].
  destruct_world w. fields. destruct client0; fields;
    try destruct (_ !! _); consistent_cases.
Qed.

Lemma consistent_startRecording_resume r w :
  consistent w → consistent (startRecording_resume r w).
Proof.
  intros H. unfold startRecording_resume, startRecording_catch.
  destruct_world w.
  destruct r as [[]|], cp_mediaStream0, ui_isConversing0; consistent_cases.
Qed.

Lemma consistent_run_cont k r w : consistent w → consistent (run_cont k r w).
Proof.
  intros H. destruct k; cbn [run_cont].
  - unfold initSession_resume. destruct r.
    + by apply consistent_settle.
    + apply consistent_settle. destruct_world w. consistent_cases.
  - unfold handleMessage_resume. destruct r as [[]|]; try done.
    apply consistent_handleMessage_calls.
    revert H. apply consistent_same_parts. parts.
  - unfold playAudio_resume. by destruct r as [[]|].
  - unfold startConversation_resume1. destruct r; [|done].
    apply consistent_request_await. by apply consistent_updateStatus.
  - unfold startConversation_resume2. destruct r as [[]|]; try done.
    + destruct_world w. consistent_cases.
    + by apply consistent_stopConversation, consistent_updateError.
  - unfold onaudioprocess_then_run. by destruct r as [[]|].
  - unfold startCamera_resume1, startCamera_catch.
    destruct r as [[]|]; try done.
    + apply consistent_request_await.
      revert H. apply consistent_same_parts. parts.
    + destruct_world w. consistent_cases.
  - unfold startCamera_resume2, startCamera_catch. destruct r.
    + destruct_world w. consistent_cases.
    + destruct_world w. consistent_cases.
  - unfold onframe_resume. destruct r as [[]|]; try done.
    by apply consistent_await.
  - unfold frame_then_run. by destruct r as [[]|].
  - unfold applySettingsAndResetSession_resume. destruct r; [|done].
    set (w1 := updateStatus _ _).
    assert (H1 : consistent w1).
    { unfold w1. destruct_world w. destruct v; consistent_cases. }
    pose proof (consistent_initSession (currentVoice w1)
                  (currentSystemInstruction w1) w1 H1) as H2.
    destruct (initSession _ _ w1) as [q w2]. exact H2.
  - by apply consistent_startRecording_resume.
Qed.

Lemma consistent_task e w w' :
  consistent w → task e w = Some w' → consistent w'.
Proof.
  intros Hi. destruct e; simpl; intros H; repeat case_match; simplify_eq.
  - revert Hi. apply consistent_same_parts. parts.
  - by apply consistent_settle.
  - unfold onopen. destruct_world w. consistent_cases.
  - unfold handleMessage. destruct (toolCall message).
    + by apply consistent_handleMessage_calls.
    + by apply consistent_handleMessage_serverContent.
  - unfold onerror.
    by apply consistent_stopConversation, consistent_updateError,
      consistent_set_sessionState.
  - unfold onclose.
    by apply consistent_stopConversation, consistent_updateStatus,
      consistent_set_sessionState.
  - unfold onaudioprocess. destruct (negb _); [done|].
    by apply consistent_await.
  - revert Hi. apply consistent_same_parts. parts.
  - unfold onframe. destruct (negb _); [done|].
    by apply consistent_request_await.
  - by apply consistent_stopRecording.
  - unfold ondataavailable. destruct (_ <? _); [|done].
    destruct_world w. consistent_cases.
  - unfold onstop. destruct_world w. consistent_cases.
  - revert Hi. apply consistent_same_parts. parts.
  - revert Hi. apply consistent_same_parts. parts.
  - unfold applySettingsAndResetSession. destruct (_ && _); [done|].
    by apply consistent_await, consistent_stopCamera,
      consistent_stopConversation.
  - unfold toggleConversation. destruct (isConversing w).
    + by apply consistent_stopConversation.
    + unfold startConversation. destruct (_ || _); [done|].
      by apply consistent_request_await.
  - unfold toggleCamera. destruct (isCameraOn w).
    + by apply consistent_stopCamera.
    + unfold startCamera. destruct (isCameraOn w); [done|].
      by apply consistent_request_await.
  - unfold toggleRecording. destruct (isRecording w).
    + by apply consistent_stopRecording.
    + unfold startRecording. destruct (negb _).
      * by apply consistent_updateError.
      * by apply consistent_request_await, consistent_updateStatus.
Qed.

Lemma consistent_step e w w' :
  consistent w → step e w = Some w' → consistent w'.
Proof.
  intros Hi. unfold step.
  destruct (microtasks w) as [|[k r] rest] eqn:Hm.
  - destruct e; try done; by apply consistent_task.
  - destruct e; try done. intros [= <-].
    apply consistent_run_cont. revert Hi. apply consistent_same_parts. parts.
Qed.

Lemma consistent_run es : ∀ w w',
  consistent w → run es w = Some w' → consistent w'.
Proof.
  induction es as [|e es IH]; intros w w' Hi; cbn [run].
  - by intros [= <-].
  - destruct (step e w) as [w1|] eqn:He; [|done]. cbn [mbind option_bind].
    apply IH. by eapply consistent_step.
Qed.

Lemma consistent_initClient API_KEY w :
  consistent w → consistent (initClient API_KEY w).
Proof.
  intros H. unfold initClient.
  assert (H0 : consistent (set_nextStartTime (currentTime w) w)).
  { revert H. apply consistent_same_parts. parts. }
  destruct API_KEY as [key|]; [|exact H0].
  assert (H1 : consistent
                 (set_client true (set_nextStartTime (currentTime w) w))).
  { revert H0. apply consistent_same_parts. parts. }
  pose proof (consistent_initSession
                (currentVoice
                   (set_client true (set_nextStartTime (currentTime w) w)))
                (currentSystemInstruction
                   (set_client true (set_nextStartTime (currentTime w) w)))
                _ H1) as H2.
  destruct (initSession _ _ _) as [q w2]. exact H2.
Qed.

Lemma consistent_constructor API_KEY t0 :
  consistent (constructor API_KEY t0).
Proof.
  apply consistent_initClient.
  unfold consistent, consistent_of. cbn. by repeat split; try left.
Qed.

Lemma reachable_consistent w : reachable w → consistent w.
Proof.
  intros (key & t0 & es & Hr).
  exact (consistent_run es _ _ (consistent_constructor key t0) Hr).
Qed.

(** X22.  A recording runs only during a conversation.  In every state the
    component can reach, when [isRecording] is set then [isConversing] is
    set too, the recorder is recording, and the microphone stream, the
    screen stream and the mixing context are all assigned. *)
Theorem recording_only_while_conversing w :
  reachable w → isRecording w = true →
  isConversing w = true
  ∧ (∃ rec, mediaRecorder w = Some (rec, Recording))
  ∧ is_Some (mediaStream w) ∧ is_Some (screenStream w)
  ∧ is_Some (recordingMixContext w).
Proof.
  intros Hr%reachable_consistent Hrec. revert Hr Hrec.
  unfold consistent, consistent_of, isRecording, isConversing, mediaRecorder,
    mediaStream, screenStream, recordingMixContext.
  intros (H1 & H2 & _) Hrec. destruct (H2 Hrec) as (Hc & Hm & Hs & Hx).
  rewrite Hc in H1. by destruct H1 as (? & _).
Qed.

Lemma recording_only_while_conversing_witness :
  isConversing recording_world = true
  ∧ (∃ rec, mediaRecorder recording_world = Some (rec, Recording))
  ∧ is_Some (mediaStream recording_world)
  ∧ is_Some (screenStream recording_world)
  ∧ is_Some (recordingMixContext recording_world).
Proof.
  apply (recording_only_while_conversing recording_world).
  - exists configured, 0, recording. vm_compute; reflexivity.
  - vm_compute; reflexivity.
Defined.

(** X23.  The capture graph exists exactly during a conversation.  In
    every state the component can reach, the microphone stream, the source
    node and the processor node are all assigned when [isConversing] is
    set, and none of them is assigned when it is not. *)
Theorem capture_graph_exactly_while_conversing w :
  reachable w →
  if isConversing w
  then is_Some (mediaStream w) ∧ is_Some (sourceNode w)
       ∧ is_Some (scriptProcessorNode w)
  else mediaStream w = None ∧ sourceNode w = None
       ∧ scriptProcessorNode w = None.
Proof. intros Hr%reachable_consistent. apply Hr. Qed.

Lemma capture_graph_exactly_while_conversing_witness :
  is_Some (mediaStream conversing_world)
  ∧ is_Some (sourceNode conversing_world)
  ∧ is_Some (scriptProcessorNode conversing_world).
Proof.
  apply (capture_graph_exactly_while_conversing conversing_world).
  exists configured, 0, conversing. vm_compute; reflexivity.
Defined.

(** X24.  The status line shows one message.  In every state the
    component can reach, the status and the error are not both set, so what
    [render] shows, the error or else the status, is the one of the two that
    is set. *)
Theorem status_line_shows_one_message w :
  reachable w →
  (status w = EmptyString ∨ error w = EmptyString)
  ∧ statusLine w = error w +:+ status w.
Proof.
  intros Hr%reachable_consistent.
  destruct Hr as (_ & _ & H & _). split; [exact H|].
  unfold statusLine, status, error in *.
  destruct H as [-> | ->].
  - rewrite string_app_nil_r. by destruct (ui_error (ui w)).
  - reflexivity.
Qed.

Lemma status_line_shows_one_message_witness :
  (status failed_world = EmptyString ∨ error failed_world = EmptyString)
  ∧ statusLine failed_world = error failed_world +:+ status failed_world.
Proof.
  apply (status_line_shows_one_message failed_world).
  exists configured, 0, connection_fails. vm_compute; reflexivity.
Defined.

(** X25.  The interim transcriptions are the accumulators.  In every state
    the component can reach, the text shown for the turn in progress is, for
    the user and for the assistant, exactly what has been accumulated for
    the entry the turn completion will append. *)
Theorem interim_transcription_is_accumulator w :
  reachable w →
  currentUserTranscription w = _currentInput w
  ∧ currentModelTranscription w = _currentOutput w.
Proof. intros Hr%reachable_consistent. apply Hr. Qed.

Lemma interim_transcription_is_accumulator_witness :
  currentUserTranscription conversing_world = _currentInput conversing_world
  ∧ currentModelTranscription conversing_world
    = _currentOutput conversing_world.
Proof.
  apply (interim_transcription_is_accumulator conversing_world).
  exists configured, 0, conversing. vm_compute; reflexivity.
Defined.

(** * Further properties of the frequency analyser *)

Section MoreAnalyserProperties.

Implicit Types (h : gmap nat (list Byte.byte)) (freq : list Byte.byte).

Lemma updates_elsewhere freqs : ∀ a h l,
  l ≠ Analyser.dataArray a →
  (Analyser.updates freqs (a, h)).2 !! l = h !! l.
Proof.
  induction freqs as [|freq freqs IH]; intros a h l Hl; [done|].
  unfold Analyser.updates in *. cbn [foldl]. unfold Analyser.update at 2.
  cbn [fst snd]. rewrite IH by done.
  unfold Analyser.getByteFrequencyData.
  destruct (h !! Analyser.dataArray a); [|done].
  by rewrite lookup_insert_ne.
Qed.

Lemma updates_app freqs1 freqs2 s :
  Analyser.updates (freqs1 ++ freqs2) s
  = Analyser.updates freqs2 (Analyser.updates freqs1 s).
Proof. unfold Analyser.updates. apply foldl_app. Qed.

(** X26.  The snapshot is the latest spectrum.  After an update cycle in
    which the node delivers as many bytes as the array holds, the array
    read through [data] holds exactly those bytes, whatever the cycles
    before it delivered. *)
Theorem snapshot_is_latest_spectrum freqs freq a h arr :
  h !! Analyser.data a = Some arr → length freq = length arr →
  (Analyser.updates (freqs ++ [freq]) (a, h)).2 !! Analyser.data a = Some freq.
Proof.
  intros Hl Hlen. rewrite updates_app.
  destruct (updates_preserve freqs a h arr Hl) as (Ha & arr' & Harr & Hlen').
  destruct (Analyser.updates freqs (a, h)) as [a' h'] eqn:E.
  simpl in Ha, Harr. subst a'.
  unfold Analyser.updates. cbn [foldl]. unfold Analyser.update.
  cbn [fst snd]. unfold Analyser.getByteFrequencyData, Analyser.data in *.
  rewrite Harr, lookup_insert_eq. f_equal.
  rewrite take_ge, drop_ge by lia. apply app_nil_r.
Qed.

Lemma snapshot_is_latest_spectrum_witness :
  (Analyser.updates ([[Byte.x03]] ++ [[Byte.x01; Byte.x02]])
     ({| Analyser.analyser := Analyser.createAnalyser;
         Analyser.bufferLength := 2; Analyser.dataArray := 0 |},
      {[ 0%nat := [Byte.x00; Byte.x00] ]})).2
  !! Analyser.data {| Analyser.analyser := Analyser.createAnalyser;
                      Analyser.bufferLength := 2; Analyser.dataArray := 0 |}
  = Some [Byte.x01; Byte.x02].
Proof.
  apply (snapshot_is_latest_spectrum [[Byte.x03]] [Byte.x01; Byte.x02]
           {| Analyser.analyser := Analyser.createAnalyser;
              Analyser.bufferLength := 2; Analyser.dataArray := 0 |}
           {[ 0%nat := [Byte.x00; Byte.x00] ]} [Byte.x00; Byte.x00]).
  - vm_compute; reflexivity.
  - reflexivity.
Defined.

(** X27.  Two analysers built one after the other (the visualiser builds
    one for the input and one for the output) have different arrays, and
    the update cycles of one never change the array of the other. *)
Theorem analysers_do_not_share_arrays (node1 node2 : nat) h :
  ∃ a1 h1 a2 h2,
    Analyser.constructor node1 h = Some (a1, h1)
    ∧ Analyser.constructor node2 h1 = Some (a2, h2)
    ∧ Analyser.data a1 ≠ Analyser.data a2
    ∧ ∀ freqs,
        (Analyser.updates freqs (a1, h2)).2 !! Analyser.data a2
        = h2 !! Analyser.data a2
        ∧ (Analyser.updates freqs (a2, h2)).2 !! Analyser.data a1
          = h2 !! Analyser.data a1.
Proof.
  eexists _, _, _, _. split; [reflexivity|]. split; [reflexivity|].
  cbn [Analyser.data Analyser.dataArray].
  assert (Hne : fresh (dom h)
                ≠ fresh (dom (<[fresh (dom h) :=
                                  replicate (Analyser.frequencyBinCount
                                    {| Analyser.fftSize := 256;
                                       Analyser.smoothingTimeConstant := (6 # 10)%Q;
                                       Analyser.minDecibels := -90;
                                       Analyser.maxDecibels := -10;
                                       Analyser.inputs := [] |}) Byte.x00]> h))).
  { intros Heq.
    apply (is_fresh (dom (<[fresh (dom h) :=
              replicate (Analyser.frequencyBinCount
                {| Analyser.fftSize := 256;
                   Analyser.smoothingTimeConstant := (6 # 10)%Q;
                   Analyser.minDecibels := -90;
                   Analyser.maxDecibels := -10;
                   Analyser.inputs := [] |}) Byte.x00]> h))).
    rewrite <- Heq. rewrite dom_insert. set_solver. }
  split; [exact Hne|].
  intros freqs. split; apply updates_elsewhere; cbn [Analyser.dataArray];
    [intros Heq; by apply Hne|exact Hne].
Qed.

End MoreAnalyserProperties.
(** * Further properties of the playback and of the first connection *)

(** X28.  A chunk that cannot be decoded is dropped without any sign to
    the user: no source is created or started, the in-flight set and the
    status line are unchanged, and the decoding is the only call made.  The
    cursor has still been moved up to the clock. *)
Theorem audio_decode_failure_is_silent c d msg p w :
  ready p w → is_connection c w = true → truthy d = true →
  ∃ w',
    run [EvMessage c (audioMessage d); EvSettle p (Rejected msg); EvMicrotask] w
    = Some w'
    ∧ trace w' = trace w ++ [Call p (DecodeAudioData d)]
    ∧ sources w' = sources w ∧ ui w' = ui w
    ∧ nextStartTime w' = Z.max (nextStartTime w) (currentTime w).
Proof.
  intros Hr Hc Hd.
  eexists. split.
  { erewrite run_task; [|apply Hr|done|].
    2:{ cbn [task]. rewrite Hc. reflexivity. }
    rewrite handleMessage_audioMessage by done.
    unfold playAudio. cbv zeta.
    rewrite run_request; [|by same_runtime|reflexivity].
    cbn [run_cont playAudio_resume run]. reflexivity. }
  destruct Hr as (_ & Hm & <-). unfold requested.
  destruct_world w. fields. by subst.
Qed.

Lemma audio_decode_failure_is_silent_witness :
  ∃ w',
    run [EvMessage 1 (audioMessage "AAAA");
         EvSettle 3 (Rejected "EncodingError"); EvMicrotask] (connected_world 5)
    = Some w'
    ∧ trace w' = trace (connected_world 5) ++ [Call 3 (DecodeAudioData "AAAA")]
    ∧ sources w' = sources (connected_world 5)
    ∧ ui w' = ui (connected_world 5)
    ∧ nextStartTime w'
      = Z.max (nextStartTime (connected_world 5))
          (currentTime (connected_world 5)).
Proof.
  apply (audio_decode_failure_is_silent 1 "AAAA" "EncodingError" 3
           (connected_world 5)).
  - ready_by_evaluation.
  - vm_compute; reflexivity.
  - reflexivity.
Defined.

Lemma onended_all ended : ∀ w,
  sources (foldl (λ w s, onended s w) w ended)
  = filter (λ s, s ∉ ended) (sources w)
  ∧ trace (foldl (λ w s, onended s w) w ended) = trace w
  ∧ microtasks (foldl (λ w s, onended s w) w ended) = microtasks w.
Proof.
  induction ended as [|s ended IH]; intros w; cbn [foldl].
  - split; [|done]. induction (sources w) as [|x l IHl]; [done|].
    rewrite filter_cons_True by apply not_elem_of_nil. by f_equal.
  - destruct (IH (onended s w)) as (H1 & H2 & H3). rewrite H1, H2, H3.
    split; [|done].
    change (sources (onended s w)) with (set_delete s (sources w)).
    unfold set_delete. rewrite list_filter_filter.
    apply list_filter_iff. intros x. rewrite not_elem_of_cons. tauto.
Qed.

(** X29.  An interruption stops exactly the sources that are still in
    flight.  After some sources have ended, the interruption stops the
    others, each once and in the order in which they were added, and stops
    none that has ended; afterwards the in-flight set is empty and the
    cursor is zero. *)
Theorem interruption_stops_sources_in_flight ended w :
  let w1 := foldl (λ w s, onended s w) w ended in
  let w2 := handleMessage interruptedMessage w1 in
  trace w2 = trace w ++ (SourceStop <$> filter (λ s, s ∉ ended) (sources w))
  ∧ sources w2 = [] ∧ nextStartTime w2 = 0.
Proof.
  intros w1 w2.
  destruct (onended_all ended w) as (H1 & H2 & _). fold w1 in H1, H2.
  subst w2.
  unfold handleMessage, handleMessage_serverContent, parts_missing,
    handleMessage_rest.
  cbn [toolCall modelTurn interruptedMessage].
  unfold handleMessage_audio, handleMessage_inputTranscription,
    handleMessage_outputTranscription, handleMessage_turnComplete,
    handleMessage_interrupted.
  cbn [modelTurn inputTranscription outputTranscription turnComplete
       interrupted interruptedMessage].
  rewrite stop_sources_trace, H1, H2. by destruct_world w1.
Qed.

(** X30.  The first connection cannot be established.  With an API key
    configured, when [live.connect] is rejected, whatever the message, the
    component ends in the error state with that message shown and no
    status, the session promise is rejected with that message, and the
    button that starts a conversation is disabled.  Without an API key the
    constructor of the client throws: no connection is requested and nothing
    is shown, the component stays idle without a client and without a
    session promise, and the button is disabled as well.  Applying another
    voice then fails inside [initSession] with the TypeError of the missing
    client, again without a connection being requested. *)
Theorem first_connection_failure t0 key msg :
  (∃ w',
     run [EvSettle 1 (Rejected msg); EvMicrotask] (constructor (Some key) t0)
     = Some w'
     ∧ sessionState w' = Error ∧ error w' = msg ∧ status w' = EmptyString
     ∧ promises w' !! sessionPromise w' = Some (Rejected msg)
     ∧ step EvToggleConversation w' = None)
  ∧ sessionState (constructor None t0) = Idle
  ∧ status (constructor None t0) = EmptyString
  ∧ error (constructor None t0) = EmptyString
  ∧ client (constructor None t0) = false
  ∧ sessionPromise (constructor None t0) = 0%nat
  ∧ requests (constructor None t0) = ∅
  ∧ trace (constructor None t0) = []
  ∧ step EvToggleConversation (constructor None t0) = None
  ∧ ∃ w',
      run [EvVoiceChange "Puck"; EvApply true; EvMicrotask]
        (constructor None t0) = Some w'
      ∧ sessionState w' = Error ∧ error w' = client_TypeError
      ∧ status w' = EmptyString
      ∧ promises w' !! sessionPromise w' = Some (Rejected client_TypeError)
      ∧ requests w' = ∅ ∧ trace w' = [].
Proof.
  split.
  { eexists. split; [vm_compute; reflexivity|]. vm_compute. by repeat split. }
  do 8 (split; [vm_compute; reflexivity|]).
  eexists. split; [vm_compute; reflexivity|].
  vm_compute. by repeat split.
Qed.
